(** * The New-Main-Menu subsystem of Bomber: spot registry and spot cycling

    A shallow embedding of [UNMMSubsystem] (NMMSubsystem.cpp): the registry
    [MainMenuSpotsInternal], the selection [ActiveMainMenuSpotIdx], and the
    operations [AddNewMainMenuSpot], [RemoveMainMenuSpot],
    [GetActiveMainMenuSpotComponent], [GetMainMenuSpotsByLevelType],
    [MoveMainMenuSpot] and [Deinitialize].

    Engine arrays ([TArray]) are lists, spot pointers are optional handles
    ([None] is [nullptr]), [int32] values are integers with the wrap-around
    of the 32-bit addition written out, and the engine diagnostics
    ([ensureMsgf], [checkf], the range check of [operator[]]) are explicit
    outcomes of the computation. *)

From Stdlib Require Import ZArith Lia.
From stdpp Require Import base decidable option list sorting.

Local Open Scope Z_scope.

(** ** 32-bit signed arithmetic *)

Module Int32.

Definition wrap (z : Z) : Z := (z + 2 ^ 31) mod 2 ^ 32 - 2 ^ 31.

Definition add (a b : Z) : Z := wrap (a + b).

Definition in_range (z : Z) : Prop := - 2 ^ 31 <= z < 2 ^ 31.

End Int32.

(** ** The engine's dynamic array

    Only the operations the subsystem calls.  Indices handed to the caller
    are [int32] values, [INDEX_NONE] is [-1]. *)

Module TArray.

Definition INDEX_NONE : Z := -1.

Section ops.
Context {A : Type} `{EqDecision A}.

Definition Num (l : list A) : Z := Z.of_nat (length l).

Definition IsValidIndex (l : list A) (Index : Z) : bool :=
  bool_decide (0 <= Index) && bool_decide (Index < Num l).

(** Position of the first element equal to [Item]. *)
Fixpoint Find (Item : A) (l : list A) : option nat :=
  match l with
  | [] => None
  | x :: l' => if decide (x = Item) then Some O else S <$> Find Item l'
  end.

Definition IndexOfByKey (Item : A) (l : list A) : Z :=
  match Find Item l with
  | Some i => Z.of_nat i
  | None => INDEX_NONE
  end.

Definition Contains (Item : A) (l : list A) : bool :=
  bool_decide (is_Some (Find Item l)).

(** [AddUnique]: appends the item unless an equal element is there. *)
Definition AddUnique (Item : A) (l : list A) : list A :=
  if Contains Item l then l else l ++ [Item].

(** [RemoveAtSwap(Index)]: the last element is moved into the hole, the
    array shrinks by one. *)
Definition RemoveAtSwap (Index : nat) (l : list A) : list A :=
  match last l with
  | Some y => take (length l - 1) (<[Index := y]> l)
  | None => l
  end.

(** [RemoveSwap(Item)]: scans the array once; on a match the element is
    removed with [RemoveAtSwap] and the same index is examined again.  The
    distance between the index and the end shrinks at every iteration, so
    [length l] iterations are enough. *)
Fixpoint RemoveSwap_loop (fuel : nat) (Item : A) (Index : nat) (l : list A)
  : list A :=
  match fuel with
  | O => l
  | S fuel' =>
      match l !! Index with
      | None => l
      | Some x =>
          if decide (x = Item)
          then RemoveSwap_loop fuel' Item Index (RemoveAtSwap Index l)
          else RemoveSwap_loop fuel' Item (S Index) l
      end
  end.

Definition RemoveSwap (Item : A) (l : list A) : list A :=
  RemoveSwap_loop (length l) Item O l.

(** [Empty()] *)
Definition Empty (l : list A) : list A := [].

End ops.

(** [Sort(Predicate)] is the engine's unstable comparison sort.  Its
    contract: the result is a permutation of the array, and for a predicate
    that is a strict weak order no element is placed after one that the
    predicate puts behind it.  Which of two elements that the predicate does
    not separate comes first is left open. *)

Record StrictWeakOrder {A : Type} (lt : A -> A -> bool) : Prop := {
  swo_irrefl : forall a, lt a a = false;
  swo_trans : forall a b c, lt a b = true -> lt b c = true -> lt a c = true;
  swo_negtrans :
    forall a b c, lt a b = false -> lt b c = false -> lt a c = false
}.

Definition not_after {A : Type} (lt : A -> A -> bool) : relation A :=
  fun a b => lt b a = false.

#[global] Instance not_after_dec {A : Type} (lt : A -> A -> bool) (a b : A)
  : Decision (not_after lt a b) := decide (lt b a = false).

Class ArraySort := {
  Sort : forall {A : Type}, (A -> A -> bool) -> list A -> list A;
  Sort_perm : forall A (lt : A -> A -> bool) l, Sort lt l ≡ₚ l;
  Sort_sorted :
    forall A (lt : A -> A -> bool) l,
      StrictWeakOrder lt -> Sorted (not_after lt) (Sort lt l)
}.

End TArray.

(** ** Spots, the world around the subsystem, and what a call can do *)

(** A [Handle] is the address of a live [UNMMSpotComponent]; a pointer is a
    handle or [nullptr]. *)
Abbreviation Handle := nat (only parsing).
Abbreviation Ptr := (option nat) (only parsing).

(** [FNMMCinematicRow], the two fields the subsystem reads.  [ELevelType] is
    only forward-declared in the sources at hand ([enum class ELevelType :
    uint8]); it is a type with decidable equality here. *)
Record FNMMCinematicRow (ELevelType : Type) := {
  LevelType : ELevelType;
  RowIndex : Z
}.
Arguments LevelType {ELevelType} _.
Arguments RowIndex {ELevelType} _.

(** What the subsystem reads and never writes: the cinematic row of each
    live spot ([UNMMSpotComponent::GetCinematicRow]) and the type of the
    current level ([UMyBlueprintFunctionLibrary::GetLevelType]). *)
Record World (ELevelType : Type) := {
  GetCinematicRow : Handle -> FNMMCinematicRow ELevelType;
  GetLevelType : ELevelType
}.
Arguments GetCinematicRow {ELevelType} _ _.
Arguments GetLevelType {ELevelType} _.

(** The one cinematic state the subsystem ever sets. *)
Inductive ENMMCinematicState := IdlePart.

(** The members of [UNMMSubsystem].  The data asset is a soft pointer,
    [None] when reset. *)
Record UNMMSubsystem := {
  NewMainMenuDataAssetInternal : option nat;
  MainMenuSpotsInternal : list Ptr;
  ActiveMainMenuSpotIdx : Z
}.

(** The functions with an [ensureMsgf]. *)
Inductive EnsureSite :=
  | InAddNewMainMenuSpot
  | InRemoveMainMenuSpot
  | InMoveMainMenuSpot.

(** What a call does to the outside: a failed [ensureMsgf] (reported, the
    call goes on) and the two calls on spot components. *)
Inductive Event :=
  | EnsureFailed (site : EnsureSite)
  | StopMasterSequence (spot : Handle)
  | SetCinematicState (spot : Handle) (state : ENMMCinematicState).

(** What ends the process: a failed [checkf], a failed range check of
    [operator[]], a call through [nullptr], an integer division by zero. *)
Inductive Failure :=
  | CheckFailed
  | RangeCheckFailed
  | NullDereference
  | DivideByZero.

Inductive Outcome (A : Type) :=
  | Done (a : A)
  | Fatal (f : Failure).
Arguments Done {A} a.
Arguments Fatal {A} f.

(** A member function: reads and writes the subsystem, emits events, may
    end the process. *)
Definition M (A : Type) : Type :=
  UNMMSubsystem -> Outcome (A * UNMMSubsystem * list Event).

Definition ret {A} (a : A) : M A := fun this => Done (a, this, []).

Definition bind {A B} (m : M A) (k : A -> M B) : M B :=
  fun this =>
    match m this with
    | Fatal f => Fatal f
    | Done (a, this1, t1) =>
        match k a this1 with
        | Fatal f => Fatal f
        | Done (b, this2, t2) => Done (b, this2, t1 ++ t2)
        end
    end.

Notation "'do' x <- m ; k" := (bind m (fun x => k))
  (at level 10, x name, m at level 100, k at level 200, only parsing).
Notation "m ;; k" := (bind m (fun _ => k))
  (at level 100, k at level 200, only parsing).

Definition gets {A} (f : UNMMSubsystem -> A) : M A :=
  fun this => Done (f this, this, []).

Definition modify (f : UNMMSubsystem -> UNMMSubsystem) : M unit :=
  fun this => Done (tt, f this, []).

Definition emit (e : Event) : M unit := fun this => Done (tt, this, [e]).

Definition lift {A} (o : Outcome A) : M A :=
  fun this =>
    match o with
    | Done a => Done (a, this, [])
    | Fatal f => Fatal f
    end.

(** [ensureMsgf(cond, ...)]: yields [cond]; a false one is reported. *)
Definition ensureMsgf (site : EnsureSite) (cond : bool) : M bool :=
  if cond then ret true else emit (EnsureFailed site) ;; ret false.

(** [checkf(cond, ...)]: a false condition ends the process. *)
Definition checkf (cond : bool) : M unit :=
  if cond then ret tt else lift (Fatal CheckFailed).

(** [Array[Index]], with the range check of [TArray::operator[]]. *)
Definition at_index {A} (l : list A) (Index : Z) : Outcome A :=
  if TArray.IsValidIndex l Index then
    match l !! Z.to_nat Index with
    | Some x => Done x
    | None => Fatal RangeCheckFailed
    end
  else Fatal RangeCheckFailed.

(** [Ptr->] *)
Definition deref (p : Ptr) : Outcome Handle :=
  match p with
  | Some h => Done h
  | None => Fatal NullDereference
  end.

(** [a % b] on [int32]: truncated remainder. *)
Definition int32_rem (a b : Z) : Outcome Z :=
  if decide (b = 0) then Fatal DivideByZero else Done (Z.rem a b).

Definition set_ActiveMainMenuSpotIdx (v : Z) (this : UNMMSubsystem)
  : UNMMSubsystem :=
  {| NewMainMenuDataAssetInternal := NewMainMenuDataAssetInternal this;
     MainMenuSpotsInternal := MainMenuSpotsInternal this;
     ActiveMainMenuSpotIdx := v |}.

Definition set_MainMenuSpotsInternal (v : list Ptr)
  (this : UNMMSubsystem) : UNMMSubsystem :=
  {| NewMainMenuDataAssetInternal := NewMainMenuDataAssetInternal this;
     MainMenuSpotsInternal := v;
     ActiveMainMenuSpotIdx := ActiveMainMenuSpotIdx this |}.

Definition set_NewMainMenuDataAssetInternal (v : option nat)
  (this : UNMMSubsystem) : UNMMSubsystem :=
  {| NewMainMenuDataAssetInternal := v;
     MainMenuSpotsInternal := MainMenuSpotsInternal this;
     ActiveMainMenuSpotIdx := ActiveMainMenuSpotIdx this |}.

(** ** The member functions of [UNMMSubsystem] *)

Section Subsystem.
Context {ELevelType : Type} `{EqDecision ELevelType}.
Context `{TArray.ArraySort}.
Variable w : World ELevelType.

(** [AddNewMainMenuSpot] *)
Definition AddNewMainMenuSpot (NewMainMenuSpotComponent : Ptr)
  : M unit :=
  do ok <- ensureMsgf InAddNewMainMenuSpot
             (bool_decide (is_Some NewMainMenuSpotComponent));
  if ok
  then modify (fun this =>
         set_MainMenuSpotsInternal
           (TArray.AddUnique NewMainMenuSpotComponent
              (MainMenuSpotsInternal this)) this)
  else ret tt.

(** [RemoveMainMenuSpot] *)
Definition RemoveMainMenuSpot (MainMenuSpotComponent : Ptr)
  : M unit :=
  do ok <- ensureMsgf InRemoveMainMenuSpot
             (bool_decide (is_Some MainMenuSpotComponent));
  if ok
  then modify (fun this =>
         set_MainMenuSpotsInternal
           (TArray.RemoveSwap MainMenuSpotComponent
              (MainMenuSpotsInternal this)) this)
  else ret tt.

(** [GetActiveMainMenuSpotComponent]: the first registered spot whose row
    index is the active one. *)
Fixpoint FindActiveSpot (ActiveIdx : Z) (Spots : list Ptr)
  : Ptr :=
  match Spots with
  | [] => None
  | MainMenuSpotComponent :: rest =>
      match MainMenuSpotComponent with
      | Some h =>
          if decide (RowIndex (GetCinematicRow w h) = ActiveIdx)
          then Some h
          else FindActiveSpot ActiveIdx rest
      | None => FindActiveSpot ActiveIdx rest
      end
  end.

Definition GetActiveMainMenuSpotComponent (this : UNMMSubsystem)
  : Ptr :=
  FindActiveSpot (ActiveMainMenuSpotIdx this) (MainMenuSpotsInternal this).

(** The loop of [GetMainMenuSpotsByLevelType]: every registered non-null
    spot of the level type is added to [OutSpots] unless it is there. *)
Fixpoint CollectSpots (LevelType_ : ELevelType) (Spots : list Ptr)
  (OutSpots : list Ptr) : list Ptr :=
  match Spots with
  | [] => OutSpots
  | MainMenuSpotComponent :: rest =>
      match MainMenuSpotComponent with
      | Some h =>
          if decide (LevelType (GetCinematicRow w h) = LevelType_)
          then CollectSpots LevelType_ rest
                 (TArray.AddUnique MainMenuSpotComponent OutSpots)
          else CollectSpots LevelType_ rest OutSpots
      | None => CollectSpots LevelType_ rest OutSpots
      end
  end.

(** The predicate handed to [Sort]. *)
Definition RowIndexLess (A B : Handle) : bool :=
  bool_decide (RowIndex (GetCinematicRow w A) < RowIndex (GetCinematicRow w B)).

Fixpoint deref_all (l : list Ptr) : option (list Handle) :=
  match l with
  | [] => Some []
  | Some h :: l' => cons h <$> deref_all l'
  | None :: _ => None
  end.

(** [OutSpots.Sort(...)] on an array of pointers: the predicate takes
    references, so the elements are dereferenced before they are compared.
    An array of fewer than two elements is never compared; in a longer one
    every element is, and a [nullptr] among them ends the process. *)
Definition SortSpots (OutSpots : list Ptr)
  : Outcome (list Ptr) :=
  match deref_all OutSpots with
  | Some hs => Done (Some <$> TArray.Sort RowIndexLess hs)
  | None =>
      if decide (length OutSpots <= 1)%nat
      then Done OutSpots
      else Fatal NullDereference
  end.

(** [GetMainMenuSpotsByLevelType] *)
Definition GetMainMenuSpotsByLevelType (this : UNMMSubsystem)
  (OutSpots : list Ptr) (LevelType_ : ELevelType)
  : Outcome (list Ptr) :=
  SortSpots (CollectSpots LevelType_ (MainMenuSpotsInternal this) OutSpots).

(** The loop of [MoveMainMenuSpot] that extracts the row indices. *)
Fixpoint ExtractRowIndices (CurrentLevelTypeSpots : list Ptr)
  (SpotRowIndices : list Z) : Outcome (list Z) :=
  match CurrentLevelTypeSpots with
  | [] => Done SpotRowIndices
  | SpotIt :: rest =>
      match deref SpotIt with
      | Done h =>
          ExtractRowIndices rest
            (TArray.AddUnique (RowIndex (GetCinematicRow w h)) SpotRowIndices)
      | Fatal f => Fatal f
      end
  end.

(** [MoveMainMenuSpot] *)
Definition MoveMainMenuSpot (Incrementer : Z) : M Ptr :=
  let CurrentLevelType := GetLevelType w in
  do this <- gets id;
  do CurrentLevelTypeSpots <-
    lift (GetMainMenuSpotsByLevelType this [] CurrentLevelType);
  do SpotRowIndices <- lift (ExtractRowIndices CurrentLevelTypeSpots []);
  do ActiveIdx <- gets ActiveMainMenuSpotIdx;
  let bFoundActiveIdx := TArray.Contains ActiveIdx SpotRowIndices in
  do found <- ensureMsgf InMoveMainMenuSpot bFoundActiveIdx;
  if negb found then ret None else
  let ActiveSpotPosition := TArray.IndexOfByKey ActiveIdx SpotRowIndices in
  checkf (TArray.IsValidIndex CurrentLevelTypeSpots ActiveSpotPosition) ;;
  do CurrentSpot <- lift (at_index CurrentLevelTypeSpots ActiveSpotPosition);
  checkf (bool_decide (is_Some CurrentSpot)) ;;
  do CurrentSpotRef <- lift (deref CurrentSpot);
  emit (StopMasterSequence CurrentSpotRef) ;;
  do NewSpotIndex <-
    lift (int32_rem
            (Int32.add (Int32.add ActiveSpotPosition Incrementer)
               (TArray.Num SpotRowIndices))
            (TArray.Num SpotRowIndices));
  do NewActiveIdx <- lift (at_index SpotRowIndices NewSpotIndex);
  modify (set_ActiveMainMenuSpotIdx NewActiveIdx) ;;
  checkf (TArray.IsValidIndex CurrentLevelTypeSpots NewSpotIndex) ;;
  do NewSpot <- lift (at_index CurrentLevelTypeSpots NewSpotIndex);
  checkf (bool_decide (is_Some NewSpot)) ;;
  do NewSpotRef <- lift (deref NewSpot);
  emit (SetCinematicState NewSpotRef IdlePart) ;;
  ret NewSpot.

(** [Deinitialize]; [Super::Deinitialize] touches no member of this class. *)
Definition Deinitialize : M unit :=
  modify (set_NewMainMenuDataAssetInternal None) ;;
  modify (fun this =>
    set_MainMenuSpotsInternal (TArray.Empty (MainMenuSpotsInternal this)) this).

(** The two local arrays of [MoveMainMenuSpot], as functions of the
    subsystem: [CurrentLevelTypeSpots] and [SpotRowIndices]. *)
Definition CurrentLevelTypeSpots (this : UNMMSubsystem) : list Ptr :=
  match GetMainMenuSpotsByLevelType this [] (GetLevelType w) with
  | Done Spots => Spots
  | Fatal _ => []
  end.

Definition SpotRowIndices (this : UNMMSubsystem) : list Z :=
  match ExtractRowIndices (CurrentLevelTypeSpots this) [] with
  | Done Rows => Rows
  | Fatal _ => []
  end.

(** The index that [MoveMainMenuSpot] computes when the active row index
    stands at position [pos] of [SpotRowIndices]. *)
Definition NewSpotIndex (Incrementer : Z) (this : UNMMSubsystem) (pos : nat)
  : Z :=
  Z.rem
    (Int32.add (Int32.add (Z.of_nat pos) Incrementer)
       (TArray.Num (SpotRowIndices this)))
    (TArray.Num (SpotRowIndices this)).

(** *** Vocabulary of the properties *)

(** A registered, non-null spot of the given level type. *)
Definition Matching (this : UNMMSubsystem) (LevelType_ : ELevelType)
  (h : Handle) : Prop :=
  Some h ∈ MainMenuSpotsInternal this
  /\ LevelType (GetCinematicRow w h) = LevelType_.

(** The active row index is the row index of a spot of the current level. *)
Definition ActiveInSync (this : UNMMSubsystem) : Prop :=
  exists h, Matching this (GetLevelType w) h
            /\ RowIndex (GetCinematicRow w h) = ActiveMainMenuSpotIdx this.

(** No two registered spots of the level type share a row index. *)
Definition UniqueRows (this : UNMMSubsystem) (LevelType_ : ELevelType)
  : Prop :=
  forall h1 h2,
    Matching this LevelType_ h1 -> Matching this LevelType_ h2 ->
    RowIndex (GetCinematicRow w h1) = RowIndex (GetCinematicRow w h2) ->
    h1 = h2.

Definition RowIndexLe (A B : Handle) : Prop :=
  RowIndex (GetCinematicRow w A) <= RowIndex (GetCinematicRow w B).

Definition RowIndexLt (A B : Handle) : Prop :=
  RowIndex (GetCinematicRow w A) < RowIndex (GetCinematicRow w B).

End Subsystem.

(** The registry is small enough for [Position + Incrementer + Num] to stay
    within [int32] for an incrementer of one step. *)
Definition SmallRegistry (this : UNMMSubsystem) : Prop :=
  TArray.Num (MainMenuSpotsInternal this) < 2 ^ 30.

(** No entry of the registry is [nullptr] and no spot is registered
    twice. *)
Definition RegistryClean (this : UNMMSubsystem) : Prop :=
  NoDup (MainMenuSpotsInternal this) /\ None ∉ MainMenuSpotsInternal this.

(** [k] calls of a member function in a row, the results dropped. *)
Fixpoint times {A} (k : nat) (m : M A) : M unit :=
  match k with
  | O => ret tt
  | S k' => m ;; times k' m
  end.

(** ** [UMyBlueprintFunctionLibrary]: the bitmask test of actor types *)

Module MyBlueprintFunctionLibrary.

(** [BitwiseActorTypes]: [(LBitmask & RBitmask) != 0] on [int32]. *)
Definition BitwiseActorTypes (LBitmask RBitmask : Z) : bool :=
  negb (Z.land LBitmask RBitmask =? 0).

End MyBlueprintFunctionLibrary.

(** ** A sort that meets the contract, to run the model *)

#[global] Instance MergeSort : TArray.ArraySort.
Proof.
  refine {| TArray.Sort := fun A lt =>
              merge_sort (TArray.not_after lt)
                (H := TArray.not_after_dec lt) |}.
  - intros A lt l. apply merge_sort_Permutation.
  - intros A lt l Hswo. apply Sorted_merge_sort.
    intros a b. unfold TArray.not_after.
    destruct (lt b a) eqn:Hba; [right | left; reflexivity].
    destruct (lt a b) eqn:Hab; [| reflexivity].
    rewrite <- (TArray.swo_irrefl lt Hswo a).
    symmetry. eapply TArray.swo_trans; eauto.
Defined.

(** ** Menus to run the model on *)

Module Scenario.

Inductive ELevelType := Level1 | Level2.

#[global] Instance ELevelType_eq_dec : EqDecision ELevelType.
Proof. solve_decision. Defined.

(** Spots [0], [1], [2] are the spots A, B and C of the two-level menu:
    A and B on the first level with rows 0 and 1, C on the second with
    row 0.  Spots [3] and [4] are on the first level with rows 2 and 5,
    spot [5] is a second spot of the first level with row 0. *)
Definition world (CurrentLevel : ELevelType) : World ELevelType :=
  {| GetCinematicRow := fun h : Handle =>
       match h with
       | 0%nat => {| LevelType := Level1; RowIndex := 0 |}
       | 1%nat => {| LevelType := Level1; RowIndex := 1 |}
       | 2%nat => {| LevelType := Level2; RowIndex := 0 |}
       | 3%nat => {| LevelType := Level1; RowIndex := 2 |}
       | 4%nat => {| LevelType := Level1; RowIndex := 5 |}
       | 5%nat => {| LevelType := Level1; RowIndex := 0 |}
       | _ => {| LevelType := Level2; RowIndex := 9 |}
       end;
     GetLevelType := CurrentLevel |}.

Definition subsystem (Spots : list Ptr) (ActiveIdx : Z) : UNMMSubsystem :=
  {| NewMainMenuDataAssetInternal := Some 1%nat;
     MainMenuSpotsInternal := Spots;
     ActiveMainMenuSpotIdx := ActiveIdx |}.

(** The menu A, B, C. *)
Definition menu (ActiveIdx : Z) : UNMMSubsystem :=
  subsystem [Some 0%nat; Some 1%nat; Some 2%nat] ActiveIdx.

(** A first level with the rows 0, 2 and 5, registered out of order and
    with a cleared entry in between. *)
Definition rows025 (ActiveIdx : Z) : UNMMSubsystem :=
  subsystem [Some 4%nat; None; Some 0%nat; Some 2%nat; Some 3%nat] ActiveIdx.

(** A first level with one spot. *)
Definition single (ActiveIdx : Z) : UNMMSubsystem :=
  subsystem [Some 2%nat; Some 1%nat] ActiveIdx.

(** Two spots of the first level with the same row. *)
Definition twins (ActiveIdx : Z) : UNMMSubsystem :=
  subsystem [Some 0%nat; Some 5%nat] ActiveIdx.

(** The twins and B. *)
Definition crowded (ActiveIdx : Z) : UNMMSubsystem :=
  subsystem [Some 0%nat; Some 5%nat; Some 1%nat] ActiveIdx.

(** The menu A, B, C with A and B registered in the other order. *)
Definition menu_swapped (ActiveIdx : Z) : UNMMSubsystem :=
  subsystem [Some 1%nat; Some 0%nat; Some 2%nat] ActiveIdx.

End Scenario.

(** * Facts *)

(** ** Arithmetic of [int32] *)

Module Int32Facts.

Lemma wrap_in_range z : Int32.in_range z -> Int32.wrap z = z.
Proof.
  unfold Int32.in_range, Int32.wrap. intros Hz.
  rewrite Z.mod_small by lia. lia.
Qed.

Lemma add_in_range a b : Int32.in_range (a + b) -> Int32.add a b = a + b.
Proof. apply wrap_in_range. Qed.

End Int32Facts.

(** ** The array operations *)

Module TArrayFacts.
Import TArray.

Section facts.
Context {A : Type} `{EqDecision A}.
Implicit Types (l : list A) (x y : A).

Lemma Find_Some x l i : Find x l = Some i -> l !! i = Some x.
Proof.
  revert i. induction l as [|a l IH]; intros i; simpl; [discriminate|].
  destruct (decide (a = x)) as [->|Hne].
  - intros [= <-]. reflexivity.
  - destruct (Find x l) as [j|]; simpl; [|discriminate].
    intros [= <-]. simpl. apply IH. reflexivity.
Qed.

Lemma Find_None x l : Find x l = None <-> x ∉ l.
Proof.
  induction l as [|a l IH]; simpl.
  - split; [intros _; apply not_elem_of_nil | reflexivity].
  - rewrite not_elem_of_cons. destruct (decide (a = x)) as [->|Hne].
    + split; [discriminate | intros [Hx _]; congruence].
    + destruct (Find x l) as [j|]; simpl.
      * split; [discriminate|]. intros [_ Hx].
        destruct IH as [_ IH]. discriminate (IH Hx).
      * split; [|reflexivity]. intros _. split; [congruence|].
        apply IH. reflexivity.
Qed.

Lemma Find_is_Some x l : is_Some (Find x l) <-> x ∈ l.
Proof.
  destruct (Find x l) as [i|] eqn:Hf.
  - split; [intros _ | eauto]. apply list_elem_of_lookup.
    exists i. apply Find_Some. exact Hf.
  - apply Find_None in Hf. split; [intros [? [=]] | contradiction].
Qed.

Lemma Contains_true x l : Contains x l = true <-> x ∈ l.
Proof. unfold Contains. rewrite bool_decide_eq_true. apply Find_is_Some. Qed.

Lemma Contains_false x l : Contains x l = false <-> x ∉ l.
Proof.
  unfold Contains. rewrite bool_decide_eq_false, Find_is_Some. reflexivity.
Qed.

(** In an array without repetition the position found is the position. *)
Lemma Find_NoDup x l i : NoDup l -> l !! i = Some x -> Find x l = Some i.
Proof.
  intros Hnd Hi.
  destruct (Find x l) as [j|] eqn:Hf.
  - f_equal. eapply NoDup_lookup; eauto using Find_Some.
  - apply Find_None in Hf. exfalso. apply Hf.
    apply list_elem_of_lookup. eauto.
Qed.

Lemma AddUnique_present x l : x ∈ l -> AddUnique x l = l.
Proof.
  intros Hx. unfold AddUnique.
  apply Contains_true in Hx. rewrite Hx. reflexivity.
Qed.

Lemma AddUnique_absent x l : x ∉ l -> AddUnique x l = l ++ [x].
Proof.
  intros Hx. unfold AddUnique.
  apply Contains_false in Hx. rewrite Hx. reflexivity.
Qed.

Lemma elem_of_AddUnique x y l : y ∈ AddUnique x l <-> y ∈ l \/ y = x.
Proof.
  destruct (decide (x ∈ l)) as [Hx|Hx].
  - rewrite AddUnique_present by exact Hx.
    split; [auto | intros [?| ->]; assumption].
  - rewrite AddUnique_absent by exact Hx.
    rewrite elem_of_app, list_elem_of_singleton. reflexivity.
Qed.

Lemma AddUnique_NoDup x l : NoDup l -> NoDup (AddUnique x l).
Proof.
  intros Hnd. destruct (decide (x ∈ l)) as [Hx|Hx].
  - rewrite AddUnique_present by exact Hx. exact Hnd.
  - rewrite AddUnique_absent by exact Hx.
    apply NoDup_app. split; [exact Hnd|]. split; [|apply NoDup_singleton].
    intros y Hy Hy'. apply list_elem_of_singleton in Hy'. congruence.
Qed.

Lemma AddUnique_idem x l : AddUnique x (AddUnique x l) = AddUnique x l.
Proof. apply AddUnique_present, elem_of_AddUnique. right. reflexivity. Qed.

(** [RemoveAtSwap] at the position after [l1]. *)
Lemma RemoveAtSwap_last l1 x :
  RemoveAtSwap (length l1) (l1 ++ [x]) = l1.
Proof.
  unfold RemoveAtSwap. rewrite last_snoc.
  rewrite length_app. simpl.
  replace (length l1 + 1 - 1)%nat with (length l1) by lia.
  rewrite take_insert_ge by lia. apply take_app_length.
Qed.

Lemma RemoveAtSwap_inner l1 x l2 z :
  RemoveAtSwap (length l1) (l1 ++ x :: l2 ++ [z]) = l1 ++ z :: l2.
Proof.
  unfold RemoveAtSwap.
  replace (l1 ++ x :: l2 ++ [z]) with ((l1 ++ x :: l2) ++ [z])
    by (rewrite <- app_assoc; reflexivity).
  rewrite last_snoc.
  rewrite length_app. simpl.
  replace (length (l1 ++ x :: l2) + 1 - 1)%nat with (length (l1 ++ x :: l2))
    by lia.
  rewrite <- app_assoc. simpl.
  rewrite insert_app_r_alt by lia.
  replace (length l1 - length l1)%nat with O by lia. simpl.
  replace (l1 ++ z :: l2 ++ [z]) with ((l1 ++ z :: l2) ++ [z])
    by (rewrite <- app_assoc; reflexivity).
  apply take_app_length'. rewrite !length_app. reflexivity.
Qed.

(** The loop of [RemoveSwap], started after a prefix [l1] that it has
    already examined, with enough iterations left for the rest. *)
Lemma RemoveSwap_loop_perm fuel x l1 l2 :
  (length l2 <= fuel)%nat ->
  RemoveSwap_loop fuel x (length l1) (l1 ++ l2)
    ≡ₚ l1 ++ filter (fun y => y ≠ x) l2.
Proof.
  revert l1 l2. induction fuel as [|fuel IH]; intros l1 l2 Hlen.
  - destruct l2; [reflexivity | simpl in Hlen; lia].
  - simpl. rewrite lookup_app_r by lia.
    replace (length l1 - length l1)%nat with O by lia.
    destruct l2 as [|a l2]; [reflexivity|]. simpl in Hlen. simpl.
    destruct (decide (a = x)) as [->|Hne].
    + rewrite filter_cons_False by (intros Hn; apply Hn; reflexivity).
      destruct l2 as [|z l2' _] using rev_ind.
      * rewrite RemoveAtSwap_last.
        rewrite <- (app_nil_r l1) at 2.
        rewrite IH by (simpl; lia). reflexivity.
      * rewrite RemoveAtSwap_inner.
        rewrite length_app in Hlen. simpl in Hlen.
        rewrite IH by (simpl; lia).
        apply Permutation_app_head.
        apply filter_Permutation.
        rewrite Permutation_app_comm. reflexivity.
    + rewrite filter_cons_True by exact Hne.
      replace (l1 ++ a :: l2) with ((l1 ++ [a]) ++ l2)
        by (rewrite <- app_assoc; reflexivity).
      replace (S (length l1)) with (length (l1 ++ [a]))
        by (rewrite length_app; simpl; lia).
      rewrite IH by lia. rewrite <- app_assoc. reflexivity.
Qed.

(** [RemoveSwap] removes every occurrence of the item and nothing else. *)
Lemma RemoveSwap_perm x l : RemoveSwap x l ≡ₚ filter (fun y => y ≠ x) l.
Proof.
  unfold RemoveSwap.
  apply (RemoveSwap_loop_perm (length l) x [] l). reflexivity.
Qed.

Lemma elem_of_RemoveSwap x y l : y ∈ RemoveSwap x l <-> y ∈ l /\ y ≠ x.
Proof.
  rewrite RemoveSwap_perm, list_elem_of_filter. tauto.
Qed.

End facts.
End TArrayFacts.

(** ** The subsystem *)

Section SubsystemFacts.
Context {ELevelType : Type} `{EqDecision ELevelType}.
Context `{TArray.ArraySort}.
Variable w : World ELevelType.

Implicit Types (this : UNMMSubsystem) (h : nat) (hs : list nat).

Local Abbreviation row h := (RowIndex (GetCinematicRow w h)).

Lemma RowIndexLess_swo : TArray.StrictWeakOrder (RowIndexLess w).
Proof.
  unfold RowIndexLess. split.
  - intros a. apply bool_decide_eq_false. lia.
  - intros a b c. rewrite !bool_decide_eq_true. lia.
  - intros a b c. rewrite !bool_decide_eq_false. lia.
Qed.

#[local] Instance RowIndexLe_trans : Transitive (RowIndexLe w).
Proof. unfold RowIndexLe. intros a b c. lia. Qed.

(** What [Sort] does with the predicate of [GetMainMenuSpotsByLevelType]. *)
Lemma Sort_RowIndexLe hs :
  StronglySorted (RowIndexLe w) (TArray.Sort (RowIndexLess w) hs).
Proof.
  apply Sorted_StronglySorted; [apply _|].
  pose proof (TArray.Sort_sorted _ (RowIndexLess w) hs RowIndexLess_swo) as Hs.
  induction Hs as [|a l Hs IH Hhd]; constructor; [exact IH|].
  destruct Hhd as [|b l Hab]; constructor.
  unfold TArray.not_after, RowIndexLess in Hab.
  apply bool_decide_eq_false in Hab. unfold RowIndexLe. lia.
Qed.

(** Strictly ascending as soon as the row indices do not repeat. *)
Lemma StronglySorted_RowIndexLt hs :
  StronglySorted (RowIndexLe w) hs ->
  NoDup ((fun h => row h) <$> hs) ->
  StronglySorted (RowIndexLt w) hs.
Proof.
  induction 1 as [|a l Hs IH Hall]; intros Hnd; constructor.
  - apply IH. simpl in Hnd. apply NoDup_cons in Hnd. apply Hnd.
  - simpl in Hnd. apply NoDup_cons in Hnd. destruct Hnd as [Hna _].
    rewrite Forall_forall in Hall |- *. intros b Hb.
    specialize (Hall b Hb). unfold RowIndexLe in Hall. unfold RowIndexLt.
    destruct (decide (row a = row b)) as [Heq|Hne]; [|lia].
    exfalso. apply Hna. rewrite Heq.
    apply (list_elem_of_fmap_2 (fun h => row h)). exact Hb.
Qed.

(** Two spots of a strictly ascending array are the same spot or have
    different row indices. *)
Lemma StronglySorted_RowIndexLt_cases hs h1 h2 :
  StronglySorted (RowIndexLt w) hs -> h1 ∈ hs -> h2 ∈ hs ->
  h1 = h2 \/ RowIndexLt w h1 h2 \/ RowIndexLt w h2 h1.
Proof.
  induction 1 as [|a l Hs IH Hall]; intros H1 H2.
  - apply elem_of_nil in H1. contradiction.
  - rewrite Forall_forall in Hall.
    apply elem_of_cons in H1, H2.
    destruct H1 as [->|H1], H2 as [->|H2]; auto.
Qed.

Lemma deref_all_fmap hs : deref_all (Some <$> hs) = Some hs.
Proof.
  induction hs as [|h hs IH]; csimpl; [reflexivity|].
  rewrite IH. reflexivity.
Qed.

Lemma deref_all_Some l hs : deref_all l = Some hs -> l = Some <$> hs.
Proof.
  revert hs. induction l as [|[h|] l IH]; intros hs; simpl.
  - intros [= <-]. reflexivity.
  - destruct (deref_all l) as [hs'|]; simpl; [|discriminate].
    intros [= <-]. simpl. f_equal. apply IH. reflexivity.
  - discriminate.
Qed.

(** The loop of [GetMainMenuSpotsByLevelType] appends, in registry order and
    once each, the matching spots that [OutSpots] does not hold yet. *)
Lemma CollectSpots_spec lt Spots OutSpots :
  exists fresh,
    CollectSpots w lt Spots OutSpots = OutSpots ++ (Some <$> fresh)
    /\ NoDup fresh
    /\ (forall h, h ∈ fresh <->
          Some h ∈ Spots /\ LevelType (GetCinematicRow w h) = lt
          /\ Some h ∉ OutSpots)
    /\ (length fresh <= length Spots)%nat.
Proof.
  revert OutSpots.
  induction Spots as [|[h0|] Spots IH]; intros OutSpots; simpl.
  - exists []. simpl. rewrite app_nil_r.
    split; [reflexivity|]. split; [constructor|]. split; [|lia].
    intros h. rewrite elem_of_nil, elem_of_nil. tauto.
  - destruct (decide (LevelType (GetCinematicRow w h0) = lt)) as [Hlt|Hlt].
    + destruct (decide (Some h0 ∈ OutSpots)) as [Hin|Hin].
      * rewrite TArrayFacts.AddUnique_present by exact Hin.
        destruct (IH OutSpots) as (fresh & -> & Hnd & Hel & Hlen).
        exists fresh. split; [reflexivity|]. split; [exact Hnd|].
        split; [|lia]. intros h. rewrite Hel, elem_of_cons.
        split; [tauto|]. intros [[[= ->]|?] [? ?]]; tauto.
      * rewrite TArrayFacts.AddUnique_absent by exact Hin.
        destruct (IH (OutSpots ++ [Some h0]))
          as (fresh & -> & Hnd & Hel & Hlen).
        exists (h0 :: fresh). split.
        { rewrite <- app_assoc. reflexivity. }
        split.
        { constructor; [|exact Hnd]. rewrite Hel.
          intros (_ & _ & Hn). apply Hn.
          apply elem_of_app. right. constructor. }
        split; [|simpl; lia].
        intros h. rewrite !elem_of_cons, Hel, elem_of_app.
        rewrite list_elem_of_singleton.
        split.
        -- intros [->|(? & ? & Hn)]; [tauto|].
           split; [tauto|]. split; [tauto|]. tauto.
        -- intros ([[= ->]|?] & ? & ?); [tauto|].
           destruct (decide (h = h0)) as [->|Hne]; [tauto|].
           right. split; [assumption|]. split; [assumption|].
           intros [?|[= ?]]; tauto.
    + destruct (IH OutSpots) as (fresh & -> & Hnd & Hel & Hlen).
      exists fresh. split; [reflexivity|]. split; [exact Hnd|].
      split; [|lia]. intros h. rewrite Hel, elem_of_cons.
      split; [tauto|]. intros [[[= ->]|?] [? ?]]; tauto.
  - destruct (IH OutSpots) as (fresh & -> & Hnd & Hel & Hlen).
    exists fresh. split; [reflexivity|]. split; [exact Hnd|].
    split; [|lia]. intros h. rewrite Hel, elem_of_cons.
    split; [tauto|]. intros [[[=]|?] [? ?]]; tauto.
Qed.

(** [GetMainMenuSpotsByLevelType] on an output array without [nullptr]:
    the old elements and the matching spots not among them, sorted. *)
Lemma GetMainMenuSpotsByLevelType_nonnull this os lt :
  exists fresh,
    GetMainMenuSpotsByLevelType w this (Some <$> os) lt
      = Done (Some <$> TArray.Sort (RowIndexLess w) (os ++ fresh))
    /\ NoDup fresh
    /\ (forall h, h ∈ fresh <-> Matching w this lt h /\ h ∉ os)
    /\ (length fresh <= length (MainMenuSpotsInternal this))%nat.
Proof.
  unfold GetMainMenuSpotsByLevelType, SortSpots.
  destruct (CollectSpots_spec lt (MainMenuSpotsInternal this) (Some <$> os))
    as (fresh & -> & Hnd & Hel & Hlen).
  exists fresh. rewrite <- fmap_app, deref_all_fmap.
  split; [reflexivity|]. split; [exact Hnd|]. split; [|exact Hlen].
  intros h. rewrite Hel. unfold Matching.
  rewrite (list_elem_of_fmap_inj Some). tauto.
Qed.

(** The candidates of a level type: [GetMainMenuSpotsByLevelType] on an
    empty output array. *)
Lemma GetMainMenuSpotsByLevelType_empty this lt :
  exists hs,
    GetMainMenuSpotsByLevelType w this [] lt = Done (Some <$> hs)
    /\ (forall h, h ∈ hs <-> Matching w this lt h)
    /\ NoDup hs
    /\ StronglySorted (RowIndexLe w) hs
    /\ (length hs <= length (MainMenuSpotsInternal this))%nat.
Proof.
  destruct (GetMainMenuSpotsByLevelType_nonnull this [] lt)
    as (fresh & Heq & Hnd & Hel & Hlen).
  simpl in Heq.
  pose proof (TArray.Sort_perm _ (RowIndexLess w) fresh) as Hperm.
  exists (TArray.Sort (RowIndexLess w) fresh).
  split; [exact Heq|]. split; [|split; [|split]].
  - intros h. rewrite Hperm, Hel. rewrite elem_of_nil. tauto.
  - rewrite Hperm. exact Hnd.
  - apply Sort_RowIndexLe.
  - rewrite Hperm. exact Hlen.
Qed.

(** The loop that extracts the row indices never fails on non-null spots;
    it keeps the first occurrence of every row index. *)
Lemma ExtractRowIndices_spec hs acc :
  exists Rows,
    ExtractRowIndices w (Some <$> hs) acc = Done Rows
    /\ (forall r, r ∈ Rows <-> r ∈ acc \/ exists h, h ∈ hs /\ row h = r)
    /\ (NoDup acc -> NoDup Rows)
    /\ (length Rows <= length acc + length hs)%nat.
Proof.
  revert acc. induction hs as [|h hs IH]; intros acc; csimpl.
  - exists acc. split; [reflexivity|]. split; [|split; [tauto|lia]].
    intros r. split; [tauto|]. intros [?|(h & Hh & _)]; [assumption|].
    apply elem_of_nil in Hh. contradiction.
  - destruct (IH (TArray.AddUnique (row h) acc))
      as (Rows & -> & Hel & Hnd & Hlen).
    exists Rows. split; [reflexivity|]. split; [|split].
    + intros r. rewrite Hel, TArrayFacts.elem_of_AddUnique.
      split.
      * intros [[?| ->]|(h' & ? & ?)]; [tauto| |].
        -- right. exists h. split; [constructor | reflexivity].
        -- right. exists h'. split; [constructor; assumption | assumption].
      * intros [?|(h' & Hh' & <-)]; [tauto|].
        apply elem_of_cons in Hh'. destruct Hh' as [->|?]; [tauto|].
        right. exists h'. tauto.
    + intros Hacc. apply Hnd, TArrayFacts.AddUnique_NoDup, Hacc.
    + revert Hlen. unfold TArray.AddUnique.
      destruct (TArray.Contains (row h) acc);
        rewrite ?length_app; simpl; lia.
Qed.

(** Without repeated row indices every spot contributes its own. *)
Lemma ExtractRowIndices_unique hs acc :
  NoDup (acc ++ ((fun h => row h) <$> hs)) ->
  ExtractRowIndices w (Some <$> hs) acc
    = Done (acc ++ ((fun h => row h) <$> hs)).
Proof.
  revert acc. induction hs as [|h hs IH]; intros acc Hnd; csimpl.
  - rewrite app_nil_r. reflexivity.
  - csimpl in Hnd.
    rewrite TArrayFacts.AddUnique_absent.
    + rewrite IH; rewrite <- app_assoc; [reflexivity | exact Hnd].
    + apply NoDup_app in Hnd. destruct Hnd as (_ & Hd & _).
      intros Hin. apply (Hd _ Hin). constructor.
Qed.


Local Abbreviation Active this := (ActiveMainMenuSpotIdx this).

Lemma CurrentLevelTypeSpots_spec this :
  exists hs,
    CurrentLevelTypeSpots w this = Some <$> hs
    /\ GetMainMenuSpotsByLevelType w this [] (GetLevelType w)
       = Done (Some <$> hs)
    /\ (forall h, h ∈ hs <-> Matching w this (GetLevelType w) h)
    /\ NoDup hs
    /\ StronglySorted (RowIndexLe w) hs
    /\ (length hs <= length (MainMenuSpotsInternal this))%nat.
Proof.
  destruct (GetMainMenuSpotsByLevelType_empty this (GetLevelType w))
    as (hs & Heq & Hrest).
  exists hs. unfold CurrentLevelTypeSpots. rewrite Heq. tauto.
Qed.

Lemma SpotRowIndices_spec this hs :
  CurrentLevelTypeSpots w this = Some <$> hs ->
  ExtractRowIndices w (Some <$> hs) [] = Done (SpotRowIndices w this)
  /\ (forall r, r ∈ SpotRowIndices w this <-> exists h, h ∈ hs /\ row h = r)
  /\ NoDup (SpotRowIndices w this)
  /\ (length (SpotRowIndices w this) <= length hs)%nat.
Proof.
  intros Hs. unfold SpotRowIndices. rewrite Hs.
  destruct (ExtractRowIndices_spec hs []) as (Rows & -> & Hel & Hnd & Hlen).
  split; [reflexivity|]. split; [|split; [apply Hnd; constructor | exact Hlen]].
  intros r. rewrite Hel, elem_of_nil. tauto.
Qed.

Lemma MoveMainMenuSpot_not_found Incrementer this :
  Active this ∉ SpotRowIndices w this ->
  MoveMainMenuSpot w Incrementer this
    = Done (None, this, [EnsureFailed InMoveMainMenuSpot]).
Proof.
  intros Hout.
  destruct (CurrentLevelTypeSpots_spec this) as (hs & Hs & Hget & _).
  destruct (SpotRowIndices_spec this hs Hs) as (Hrows & _).
  apply TArrayFacts.Contains_false in Hout.
  unfold MoveMainMenuSpot, bind, gets, lift, ensureMsgf. simpl.
  rewrite Hget, Hrows. simpl. rewrite Hout. reflexivity.
Qed.

Lemma IsValidIndex_of_nat {A} (l : list A) (i : nat) :
  (i < length l)%nat -> TArray.IsValidIndex l (Z.of_nat i) = true.
Proof.
  intros Hi. unfold TArray.IsValidIndex, TArray.Num.
  rewrite !bool_decide_eq_true_2; [reflexivity | lia | lia].
Qed.

Lemma at_index_lookup {A} (l : list A) (i : nat) (x : A) :
  l !! i = Some x -> at_index l (Z.of_nat i) = Done x.
Proof.
  intros Hx. unfold at_index.
  rewrite IsValidIndex_of_nat by (eapply lookup_lt_Some; exact Hx).
  rewrite Nat2Z.id, Hx. reflexivity.
Qed.

Lemma at_index_invalid {A} (l : list A) (Index : Z) :
  TArray.IsValidIndex l Index = false ->
  at_index l Index = Fatal RangeCheckFailed.
Proof. intros Hi. unfold at_index. rewrite Hi. reflexivity. Qed.

Lemma MoveMainMenuSpot_in_sync Incrementer this pos np NewActiveIdx :
  SpotRowIndices w this !! pos = Some (Active this) ->
  NewSpotIndex w Incrementer this pos = Z.of_nat np ->
  SpotRowIndices w this !! np = Some NewActiveIdx ->
  exists CurrentSpot NewSpot,
    CurrentLevelTypeSpots w this !! pos = Some (Some CurrentSpot)
    /\ CurrentLevelTypeSpots w this !! np = Some (Some NewSpot)
    /\ MoveMainMenuSpot w Incrementer this
       = Done (Some NewSpot, set_ActiveMainMenuSpotIdx NewActiveIdx this,
               [StopMasterSequence CurrentSpot;
                SetCinematicState NewSpot IdlePart]).
Proof.
  intros Hpos Hnp Hnew.
  destruct (CurrentLevelTypeSpots_spec this) as (hs & Hs & Hget & _).
  destruct (SpotRowIndices_spec this hs Hs) as (Hrows & _ & Hnd & Hlen).
  assert (Hc : TArray.Contains (Active this) (SpotRowIndices w this) = true).
  { apply TArrayFacts.Contains_true, list_elem_of_lookup. eauto. }
  assert (Hi : TArray.IndexOfByKey (Active this) (SpotRowIndices w this)
               = Z.of_nat pos).
  { unfold TArray.IndexOfByKey.
    rewrite (TArrayFacts.Find_NoDup _ _ pos Hnd Hpos). reflexivity. }
  pose proof (lookup_lt_Some _ _ _ Hpos) as Hposlt.
  pose proof (lookup_lt_Some _ _ _ Hnew) as Hnplt.
  destruct (lookup_lt_is_Some_2 hs pos ltac:(lia)) as [h0 Hh0].
  destruct (lookup_lt_is_Some_2 hs np ltac:(lia)) as [h1 Hh1].
  assert (Hs0 : (Some <$> hs) !! pos = Some (Some h0)).
  { rewrite list_lookup_fmap, Hh0. reflexivity. }
  assert (Hs1 : (Some <$> hs) !! np = Some (Some h1)).
  { rewrite list_lookup_fmap, Hh1. reflexivity. }
  exists h0, h1. rewrite Hs. split; [exact Hs0|]. split; [exact Hs1|].
  unfold NewSpotIndex in Hnp.
  unfold MoveMainMenuSpot, bind, gets, lift, ensureMsgf. simpl.
  rewrite Hget, Hrows. simpl. rewrite Hc. simpl. rewrite Hi.
  rewrite IsValidIndex_of_nat by (rewrite length_fmap; lia). simpl.
  rewrite (at_index_lookup _ _ _ Hs0). simpl.
  unfold int32_rem.
  destruct (decide (TArray.Num (SpotRowIndices w this) = 0)) as [Hz|_].
  { unfold TArray.Num in Hz. lia. }
  rewrite Hnp. rewrite (at_index_lookup _ _ _ Hnew). simpl.
  rewrite IsValidIndex_of_nat by (rewrite length_fmap; lia). simpl.
  rewrite (at_index_lookup _ _ _ Hs1). simpl.
  reflexivity.
Qed.

Lemma MoveMainMenuSpot_bad_index Incrementer this pos :
  SpotRowIndices w this !! pos = Some (Active this) ->
  TArray.IsValidIndex (SpotRowIndices w this)
    (NewSpotIndex w Incrementer this pos) = false ->
  MoveMainMenuSpot w Incrementer this = Fatal RangeCheckFailed.
Proof.
  intros Hpos Hbad.
  destruct (CurrentLevelTypeSpots_spec this) as (hs & Hs & Hget & _).
  destruct (SpotRowIndices_spec this hs Hs) as (Hrows & _ & Hnd & Hlen).
  assert (Hc : TArray.Contains (Active this) (SpotRowIndices w this) = true).
  { apply TArrayFacts.Contains_true, list_elem_of_lookup. eauto. }
  assert (Hi : TArray.IndexOfByKey (Active this) (SpotRowIndices w this)
               = Z.of_nat pos).
  { unfold TArray.IndexOfByKey.
    rewrite (TArrayFacts.Find_NoDup _ _ pos Hnd Hpos). reflexivity. }
  pose proof (lookup_lt_Some _ _ _ Hpos) as Hposlt.
  destruct (lookup_lt_is_Some_2 hs pos ltac:(lia)) as [h0 Hh0].
  assert (Hs0 : (Some <$> hs) !! pos = Some (Some h0)).
  { rewrite list_lookup_fmap, Hh0. reflexivity. }
  unfold NewSpotIndex in Hbad.
  unfold MoveMainMenuSpot, bind, gets, lift, ensureMsgf. simpl.
  rewrite Hget, Hrows. simpl. rewrite Hc. simpl. rewrite Hi.
  rewrite IsValidIndex_of_nat by (rewrite length_fmap; lia). simpl.
  rewrite (at_index_lookup _ _ _ Hs0). simpl.
  unfold int32_rem.
  destruct (decide (TArray.Num (SpotRowIndices w this) = 0)) as [Hz|_].
  { unfold TArray.Num in Hz. lia. }
  rewrite (at_index_invalid _ _ Hbad). reflexivity.
Qed.

(** Setting the active index changes neither array of [MoveMainMenuSpot]. *)
Lemma SpotRowIndices_set_Active v this :
  SpotRowIndices w (set_ActiveMainMenuSpotIdx v this) = SpotRowIndices w this.
Proof. reflexivity. Qed.

Lemma CurrentLevelTypeSpots_set_Active v this :
  CurrentLevelTypeSpots w (set_ActiveMainMenuSpotIdx v this)
    = CurrentLevelTypeSpots w this.
Proof. reflexivity. Qed.

(** The row indices are those of the spots of the current level. *)
Lemma elem_of_SpotRowIndices this r :
  r ∈ SpotRowIndices w this
  <-> exists h, Matching w this (GetLevelType w) h /\ row h = r.
Proof.
  destruct (CurrentLevelTypeSpots_spec this) as (hs & Hs & _ & Hel & _).
  destruct (SpotRowIndices_spec this hs Hs) as (_ & Hrows & _).
  rewrite Hrows. split; intros (h & Hh & Hr); exists h; split; auto;
    apply Hel; exact Hh.
Qed.

Lemma ActiveInSync_iff this :
  ActiveInSync w this <-> Active this ∈ SpotRowIndices w this.
Proof. rewrite elem_of_SpotRowIndices. reflexivity. Qed.

Lemma SpotRowIndices_small this :
  SmallRegistry this -> TArray.Num (SpotRowIndices w this) < 2 ^ 30.
Proof.
  unfold SmallRegistry, TArray.Num. intros Hsmall.
  destruct (CurrentLevelTypeSpots_spec this) as (hs & Hs & _ & _ & _ & _ & Hl).
  destruct (SpotRowIndices_spec this hs Hs) as (_ & _ & _ & Hlen).
  lia.
Qed.

(** For one step in either direction the 32-bit sum does not wrap, and the
    truncated remainder is the modulus. *)
Lemma NewSpotIndex_step Incrementer this pos :
  Incrementer = 1 \/ Incrementer = -1 ->
  TArray.Num (SpotRowIndices w this) < 2 ^ 30 ->
  (pos < length (SpotRowIndices w this))%nat ->
  NewSpotIndex w Incrementer this pos
    = (Z.of_nat pos + Incrementer + TArray.Num (SpotRowIndices w this))
        mod TArray.Num (SpotRowIndices w this).
Proof.
  unfold NewSpotIndex, TArray.Num. intros Hd Hsmall Hpos.
  assert (H30 : 2 ^ 30 = 1073741824) by reflexivity.
  assert (H31 : 2 ^ 31 = 2147483648) by reflexivity.
  rewrite (Int32Facts.add_in_range (Z.of_nat pos))
    by (unfold Int32.in_range; lia).
  rewrite Int32Facts.add_in_range by (unfold Int32.in_range; lia).
  apply Z.rem_mod_nonneg; lia.
Qed.

(** One step of [MoveMainMenuSpot] from position [pos]. *)
Lemma MoveMainMenuSpot_step Incrementer this pos :
  Incrementer = 1 \/ Incrementer = -1 ->
  TArray.Num (SpotRowIndices w this) < 2 ^ 30 ->
  SpotRowIndices w this !! pos = Some (Active this) ->
  exists np NewActiveIdx CurrentSpot NewSpot,
    Z.of_nat np
      = (Z.of_nat pos + Incrementer + TArray.Num (SpotRowIndices w this))
          mod TArray.Num (SpotRowIndices w this)
    /\ SpotRowIndices w this !! np = Some NewActiveIdx
    /\ CurrentLevelTypeSpots w this !! pos = Some (Some CurrentSpot)
    /\ CurrentLevelTypeSpots w this !! np = Some (Some NewSpot)
    /\ MoveMainMenuSpot w Incrementer this
       = Done (Some NewSpot, set_ActiveMainMenuSpotIdx NewActiveIdx this,
               [StopMasterSequence CurrentSpot;
                SetCinematicState NewSpot IdlePart]).
Proof.
  intros Hd Hsmall Hpos.
  pose proof (lookup_lt_Some _ _ _ Hpos) as Hlt.
  pose proof (NewSpotIndex_step Incrementer this pos Hd Hsmall Hlt) as Hidx.
  set (n := TArray.Num (SpotRowIndices w this)) in *.
  assert (Hn : 0 < n) by (unfold n, TArray.Num; lia).
  pose proof (Z.mod_pos_bound (Z.of_nat pos + Incrementer + n) n Hn) as Hb.
  set (m := (Z.of_nat pos + Incrementer + n) mod n) in *.
  destruct (lookup_lt_is_Some_2 (SpotRowIndices w this) (Z.to_nat m))
    as [a Ha].
  { unfold n, TArray.Num in Hb. lia. }
  assert (Hm : Z.of_nat (Z.to_nat m) = m) by lia.
  rewrite <- Hm in Hidx.
  destruct (MoveMainMenuSpot_in_sync Incrementer this pos (Z.to_nat m) a
              Hpos Hidx Ha) as (h0 & h1 & H0 & H1 & Heq).
  exists (Z.to_nat m), a, h0, h1. auto.
Qed.

(** ** The properties of the cycle *)

(** C1.  In a registry small enough for the 32-bit arithmetic, when the
    active row index is the row index of a spot of the current level,
    [MoveMainMenuSpot(+1)] followed by [MoveMainMenuSpot(-1)] succeeds twice
    and leaves [ActiveMainMenuSpotIdx], and the whole subsystem, as it
    was. *)
Theorem MoveMainMenuSpot_round_trip this :
  SmallRegistry this ->
  ActiveInSync w this ->
  exists Spot1 this1 t1 Spot2 this2 t2,
    MoveMainMenuSpot w 1 this = Done (Some Spot1, this1, t1)
    /\ MoveMainMenuSpot w (-1) this1 = Done (Some Spot2, this2, t2)
    /\ ActiveMainMenuSpotIdx this2 = ActiveMainMenuSpotIdx this
    /\ this2 = this.
Proof.
  intros Hsmall Hsync.
  apply SpotRowIndices_small in Hsmall.
  apply ActiveInSync_iff, list_elem_of_lookup in Hsync.
  destruct Hsync as [pos Hpos].
  destruct (MoveMainMenuSpot_step 1 this pos (or_introl eq_refl) Hsmall Hpos)
    as (np & a & h0 & h1 & Hnp & Ha & _ & _ & Hmove1).
  set (this1 := set_ActiveMainMenuSpotIdx a this) in *.
  assert (Hpos1 : SpotRowIndices w this1 !! np = Some (Active this1))
    by exact Ha.
  destruct (MoveMainMenuSpot_step (-1) this1 np (or_intror eq_refl)
              Hsmall Hpos1)
    as (np2 & a2 & h2 & h3 & Hnp2 & Ha2 & _ & _ & Hmove2).
  change (SpotRowIndices w this1) with (SpotRowIndices w this) in Hnp2, Ha2.
  pose proof (lookup_lt_Some _ _ _ Hpos) as Hlt.
  assert (Hback : np2 = pos).
  { unfold TArray.Num in *.
    set (n := Z.of_nat (length (SpotRowIndices w this))) in *.
    assert (Hn : Z.of_nat pos < n) by (unfold n; lia).
    assert (Z.of_nat np2 = Z.of_nat pos); [|lia].
    destruct (decide (Z.of_nat pos + 1 < n)) as [Hin|Hge].
    - replace (Z.of_nat pos + 1 + n) with (Z.of_nat pos + 1 + 1 * n) in Hnp
        by lia.
      rewrite Z.mod_add, Z.mod_small in Hnp by lia.
      rewrite Hnp in Hnp2.
      replace (Z.of_nat pos + 1 + -1 + n) with (Z.of_nat pos + 1 * n) in Hnp2
        by lia.
      rewrite Z.mod_add, Z.mod_small in Hnp2 by lia. exact Hnp2.
    - assert (Hp : Z.of_nat pos = n - 1) by lia.
      replace (Z.of_nat pos + 1 + n) with (0 + 2 * n) in Hnp by lia.
      rewrite Z.mod_add, Z.mod_small in Hnp by lia.
      rewrite Hnp in Hnp2.
      replace (0 + -1 + n) with (n - 1) in Hnp2 by lia.
      rewrite Z.mod_small in Hnp2 by lia. lia. }
  subst np2. rewrite Hpos in Ha2. injection Ha2 as <-.
  exists h1, this1, [StopMasterSequence h0; SetCinematicState h1 IdlePart].
  exists h3, (set_ActiveMainMenuSpotIdx (Active this) this1).
  exists [StopMasterSequence h2; SetCinematicState h3 IdlePart].
  split; [exact Hmove1|]. split; [exact Hmove2|].
  split; [reflexivity|]. destruct this. reflexivity.
Qed.

(** A call that returns a spot took it from the position of the new active
    row index. *)
Lemma MoveMainMenuSpot_Done_Some Incrementer this NewSpot this' t :
  MoveMainMenuSpot w Incrementer this = Done (Some NewSpot, this', t) ->
  exists pos np,
    SpotRowIndices w this !! pos = Some (Active this)
    /\ SpotRowIndices w this !! np = Some (Active this')
    /\ CurrentLevelTypeSpots w this !! np = Some (Some NewSpot)
    /\ this' = set_ActiveMainMenuSpotIdx (Active this') this.
Proof.
  intros Hmove.
  destruct (decide (Active this ∈ SpotRowIndices w this)) as [Hin|Hout].
  2: { rewrite MoveMainMenuSpot_not_found in Hmove by exact Hout.
       discriminate. }
  apply list_elem_of_lookup in Hin. destruct Hin as [pos Hpos].
  destruct (TArray.IsValidIndex (SpotRowIndices w this)
              (NewSpotIndex w Incrementer this pos)) eqn:Hvalid.
  2: { rewrite (MoveMainMenuSpot_bad_index _ _ pos Hpos Hvalid) in Hmove.
       discriminate. }
  unfold TArray.IsValidIndex, TArray.Num in Hvalid.
  apply andb_true_iff in Hvalid.
  rewrite !bool_decide_eq_true in Hvalid. destruct Hvalid as [Hlo Hhi].
  set (m := NewSpotIndex w Incrementer this pos) in *.
  destruct (lookup_lt_is_Some_2 (SpotRowIndices w this) (Z.to_nat m))
    as [a Ha]; [lia|].
  assert (Hm : m = Z.of_nat (Z.to_nat m)) by lia.
  destruct (MoveMainMenuSpot_in_sync Incrementer this pos (Z.to_nat m) a
              Hpos Hm Ha) as (h0 & h1 & H0 & H1 & Heq).
  rewrite Heq in Hmove. injection Hmove as <- <- <-.
  exists pos, (Z.to_nat m). simpl. auto.
Qed.

(** When no two spots of the current level share a row index, the row
    indices are those of the candidates, position by position. *)
Lemma SpotRowIndices_unique this hs :
  UniqueRows w this (GetLevelType w) ->
  CurrentLevelTypeSpots w this = Some <$> hs ->
  SpotRowIndices w this = (fun h => row h) <$> hs.
Proof.
  intros Huniq Hs.
  destruct (CurrentLevelTypeSpots_spec this)
    as (hs' & Hs' & _ & Hel & Hnd & _).
  assert (hs' = hs) as ->.
  { rewrite Hs in Hs'. symmetry.
    eapply (list_fmap_eq_inj Some); [apply _ | exact Hs']. }
  destruct (SpotRowIndices_spec this hs Hs) as (Hrows & _).
  rewrite ExtractRowIndices_unique in Hrows.
  - injection Hrows as <-. reflexivity.
  - simpl. apply NoDup_fmap_2_strong; [|exact Hnd].
    intros h1 h2 H1 H2. apply Huniq; apply Hel; assumption.
Qed.

(** C2.  A successful cycle steps modularly over the ordered row indices:
    from position [pos] of the active row index, one step in either
    direction selects the row index at [(pos + direction + count) mod count]
    and returns the candidate at that position.  With the row indices
    0, 2, 5 a step forward from 5 selects 0 and a step back from 0 selects 5.
    With a single candidate the call returns that spot and leaves the
    subsystem as it was. *)
Theorem MoveMainMenuSpot_modular_step Incrementer this pos :
  SmallRegistry this ->
  Incrementer = 1 \/ Incrementer = -1 ->
  SpotRowIndices w this !! pos = Some (ActiveMainMenuSpotIdx this) ->
  let Rows := SpotRowIndices w this in
  let count := TArray.Num Rows in
  let newPos := (Z.of_nat pos + Incrementer + count) mod count in
  exists NewSpot NewActiveIdx t,
    MoveMainMenuSpot w Incrementer this
      = Done (Some NewSpot, set_ActiveMainMenuSpotIdx NewActiveIdx this, t)
    /\ Rows !! Z.to_nat newPos = Some NewActiveIdx
    /\ CurrentLevelTypeSpots w this !! Z.to_nat newPos = Some (Some NewSpot)
    /\ (Rows = [0; 2; 5] -> ActiveMainMenuSpotIdx this = 5 ->
        Incrementer = 1 -> NewActiveIdx = 0)
    /\ (Rows = [0; 2; 5] -> ActiveMainMenuSpotIdx this = 0 ->
        Incrementer = -1 -> NewActiveIdx = 5)
    /\ (forall h, CurrentLevelTypeSpots w this = [Some h] ->
          NewSpot = h
          /\ NewActiveIdx = ActiveMainMenuSpotIdx this
          /\ set_ActiveMainMenuSpotIdx NewActiveIdx this = this).
Proof.
  intros Hsmall Hd Hpos Rows count newPos.
  apply SpotRowIndices_small in Hsmall.
  destruct (MoveMainMenuSpot_step Incrementer this pos Hd Hsmall Hpos)
    as (np & a & h0 & h1 & Hnp & Ha & _ & H1 & Hmove).
  fold Rows count newPos in Hnp, Ha. fold Rows in Hpos.
  assert (Hnp' : Z.to_nat newPos = np) by lia.
  exists h1, a, [StopMasterSequence h0; SetCinematicState h1 IdlePart].
  rewrite Hnp'.
  split; [exact Hmove|]. split; [exact Ha|]. split; [exact H1|].
  split; [|split].
  - intros HR Hact ->. subst newPos count. rewrite HR in *.
    rewrite Hact in Hpos.
    destruct pos as [|[|[|pos]]]; try discriminate Hpos.
    assert (np = 0%nat) as -> by (rewrite <- Hnp'; reflexivity).
    injection Ha as <-. reflexivity.
  - intros HR Hact ->. subst newPos count. rewrite HR in *.
    rewrite Hact in Hpos.
    destruct pos as [|[|[|pos]]]; try discriminate Hpos.
    assert (np = 2%nat) as -> by (rewrite <- Hnp'; reflexivity).
    injection Ha as <-. reflexivity.
  - intros h Hs.
    assert (HR : Rows = [row h]).
    { unfold Rows, SpotRowIndices. rewrite Hs. reflexivity. }
    subst newPos count. rewrite HR in *. rewrite Hs in H1.
    destruct pos as [|pos]; [|discriminate Hpos].
    assert (np = 0%nat) as ->.
    { rewrite <- Hnp'. destruct Hd as [-> | ->]; reflexivity. }
    injection H1 as <-. injection Ha as <-. injection Hpos as Hact.
    split; [reflexivity|]. split; [exact Hact|].
    rewrite Hact. destruct this. reflexivity.
Qed.

(** C3.  When the active row index is not the row index of any spot of the
    current level, and so whenever the current level has no spot at all,
    [MoveMainMenuSpot] in any direction returns [nullptr] after a failed
    [ensureMsgf], with the subsystem unchanged, no call on a spot, and no
    division: the outcome is not a failure. *)
Theorem MoveMainMenuSpot_out_of_sync_noop Incrementer this :
  ~ ActiveInSync w this \/ (forall h, ~ Matching w this (GetLevelType w) h) ->
  MoveMainMenuSpot w Incrementer this
    = Done (None, this, [EnsureFailed InMoveMainMenuSpot]).
Proof.
  intros Hout. apply MoveMainMenuSpot_not_found.
  rewrite <- ActiveInSync_iff.
  destruct Hout as [Hout|Hempty]; [exact Hout|].
  intros (h & Hh & _). exact (Hempty h Hh).
Qed.

(** C4.  When no two spots of the current level share a row index: a call
    that returns a spot leaves [ActiveMainMenuSpotIdx] at the row index of
    that spot, which is then the one registered spot of the current level
    with this row index; and a call made while the active row index belongs
    to no spot of the current level is a reported no-op. *)
Theorem MoveMainMenuSpot_selection_invariant Incrementer this :
  UniqueRows w this (GetLevelType w) ->
  (forall NewSpot this' t,
      MoveMainMenuSpot w Incrementer this = Done (Some NewSpot, this', t) ->
      Matching w this' (GetLevelType w) NewSpot
      /\ RowIndex (GetCinematicRow w NewSpot) = ActiveMainMenuSpotIdx this'
      /\ (forall h, Matching w this' (GetLevelType w) h ->
            RowIndex (GetCinematicRow w h) = ActiveMainMenuSpotIdx this' ->
            h = NewSpot))
  /\ (~ ActiveInSync w this ->
      MoveMainMenuSpot w Incrementer this
        = Done (None, this, [EnsureFailed InMoveMainMenuSpot])).
Proof.
  intros Huniq. split.
  - intros NewSpot this' t Hmove.
    destruct (MoveMainMenuSpot_Done_Some _ _ _ _ _ Hmove)
      as (pos & np & _ & Hnew & Hspot & Hthis').
    destruct (CurrentLevelTypeSpots_spec this) as (hs & Hs & _ & Hel & _).
    rewrite (SpotRowIndices_unique this hs Huniq Hs) in Hnew.
    rewrite Hs in Hspot.
    rewrite list_lookup_fmap in Hnew. rewrite list_lookup_fmap in Hspot.
    destruct (hs !! np) as [h1|] eqn:Hh1; [|discriminate].
    simpl in Hnew, Hspot. injection Hspot as ->. injection Hnew as Hrow.
    assert (Hm : Matching w this (GetLevelType w) NewSpot).
    { apply Hel, list_elem_of_lookup. eauto. }
    assert (Hsame : forall h, Matching w this' (GetLevelType w) h
                              <-> Matching w this (GetLevelType w) h).
    { intros h. rewrite Hthis'. reflexivity. }
    split; [apply Hsame; exact Hm|]. split; [exact Hrow|].
    intros h Hh Hr. apply Huniq; [apply Hsame; exact Hh | exact Hm | lia].
  - intros Hout. apply MoveMainMenuSpot_not_found.
    rewrite <- ActiveInSync_iff. exact Hout.
Qed.

(** C9.  In a registry small enough for the 32-bit arithmetic, a step in
    either direction never ends the process: no [checkf] fails, every index
    is in range, no spot pointer that is followed is [nullptr], the divisor
    is not zero.  The candidates hold no [nullptr] and are at least as many
    as the row indices. *)
Theorem MoveMainMenuSpot_never_fatal Incrementer this :
  SmallRegistry this ->
  Incrementer = 1 \/ Incrementer = -1 ->
  (exists r, MoveMainMenuSpot w Incrementer this = Done r)
  /\ Forall is_Some (CurrentLevelTypeSpots w this)
  /\ (length (SpotRowIndices w this)
       <= length (CurrentLevelTypeSpots w this))%nat.
Proof.
  intros Hsmall Hd. apply SpotRowIndices_small in Hsmall.
  split; [|split].
  - destruct (decide (Active this ∈ SpotRowIndices w this)) as [Hin|Hout].
    + apply list_elem_of_lookup in Hin. destruct Hin as [pos Hpos].
      destruct (MoveMainMenuSpot_step Incrementer this pos Hd Hsmall Hpos)
        as (np & a & h0 & h1 & _ & _ & _ & _ & Hmove).
      rewrite Hmove. eauto.
    + rewrite MoveMainMenuSpot_not_found by exact Hout. eauto.
  - destruct (CurrentLevelTypeSpots_spec this) as (hs & -> & _).
    apply Forall_fmap, Forall_forall. intros h _. simpl. eauto.
  - destruct (CurrentLevelTypeSpots_spec this) as (hs & Hs & _).
    destruct (SpotRowIndices_spec this hs Hs) as (_ & _ & _ & Hlen).
    rewrite Hs, length_fmap. exact Hlen.
Qed.

(** ** The properties of the registry *)

(** C5, as the code has it.  On an empty output array
    [GetMainMenuSpotsByLevelType] yields exactly the registered non-null
    spots of the level type, each once, in ascending order of row index;
    the order is strict exactly when no two of these spots share a row
    index. *)
Theorem GetMainMenuSpotsByLevelType_sorted this lt :
  exists hs,
    GetMainMenuSpotsByLevelType w this [] lt = Done (Some <$> hs)
    /\ (forall h, h ∈ hs <-> Matching w this lt h)
    /\ NoDup hs
    /\ StronglySorted (RowIndexLe w) hs
    /\ (UniqueRows w this lt <-> StronglySorted (RowIndexLt w) hs).
Proof.
  destruct (GetMainMenuSpotsByLevelType_empty this lt)
    as (hs & Heq & Hel & Hnd & Hsorted & _).
  exists hs. split; [exact Heq|]. split; [exact Hel|]. split; [exact Hnd|].
  split; [exact Hsorted|]. split.
  - intros Huniq. apply StronglySorted_RowIndexLt; [exact Hsorted|].
    apply NoDup_fmap_2_strong; [|exact Hnd].
    intros h1 h2 H1 H2. apply Huniq; apply Hel; assumption.
  - intros Hstrict h1 h2 H1 H2 Hrow. apply Hel in H1, H2.
    destruct (StronglySorted_RowIndexLt_cases hs h1 h2 Hstrict H1 H2)
      as [Heq12|[Hlt|Hlt]]; [exact Heq12 | |];
      unfold RowIndexLt in Hlt; lia.
Qed.

(** C10, as the code has it.  On an output array of non-null spots
    [GetMainMenuSpotsByLevelType] keeps the elements that are there, appends
    the matching spots that are not among them and sorts the whole by row
    index.  The result holds the same spots as the result on an empty array
    exactly when the elements that were there are distinct matching spots. *)
Theorem GetMainMenuSpotsByLevelType_appends this os lt :
  exists fresh res pure,
    GetMainMenuSpotsByLevelType w this (Some <$> os) lt = Done (Some <$> res)
    /\ GetMainMenuSpotsByLevelType w this [] lt = Done (Some <$> pure)
    /\ res ≡ₚ os ++ fresh
    /\ NoDup fresh
    /\ (forall h, h ∈ fresh <-> Matching w this lt h /\ h ∉ os)
    /\ StronglySorted (RowIndexLe w) res
    /\ (res ≡ₚ pure
        <-> NoDup os /\ forall h, h ∈ os -> Matching w this lt h).
Proof.
  destruct (GetMainMenuSpotsByLevelType_nonnull this os lt)
    as (fresh & Heq & Hnd & Hel & _).
  destruct (GetMainMenuSpotsByLevelType_empty this lt)
    as (pure & Hpure & Hpel & Hpnd & _).
  pose proof (TArray.Sort_perm _ (RowIndexLess w) (os ++ fresh)) as Hperm.
  exists fresh, (TArray.Sort (RowIndexLess w) (os ++ fresh)), pure.
  split; [exact Heq|]. split; [exact Hpure|]. split; [exact Hperm|].
  split; [exact Hnd|]. split; [exact Hel|].
  split; [apply Sort_RowIndexLe|].
  rewrite Hperm. split.
  - intros Hsame. split.
    + rewrite <- Hsame in Hpnd. apply NoDup_app in Hpnd. apply Hpnd.
    + intros h Hh. apply Hpel. rewrite <- Hsame.
      apply elem_of_app. left. exact Hh.
  - intros [Hond Hom]. apply NoDup_Permutation.
    + apply NoDup_app. split; [exact Hond|]. split; [|exact Hnd].
      intros h Hh Hf. apply Hel in Hf. tauto.
    + exact Hpnd.
    + intros h. rewrite elem_of_app, Hel, Hpel.
      destruct (decide (h ∈ os)); split; auto; tauto.
Qed.

(** C6.  Adding a registered spot changes nothing and reports nothing;
    adding a spot twice is adding it once; [nullptr] handed to
    [AddNewMainMenuSpot] or [RemoveMainMenuSpot] is reported by the
    [ensureMsgf], the registry stays as it is and the call returns. *)
Theorem AddNewMainMenuSpot_idempotent this :
  (forall h, Some h ∈ MainMenuSpotsInternal this ->
     AddNewMainMenuSpot (Some h) this = Done (tt, this, []))
  /\ (forall h, exists this1,
       AddNewMainMenuSpot (Some h) this = Done (tt, this1, [])
       /\ Some h ∈ MainMenuSpotsInternal this1
       /\ AddNewMainMenuSpot (Some h) this1 = Done (tt, this1, []))
  /\ AddNewMainMenuSpot None this
     = Done (tt, this, [EnsureFailed InAddNewMainMenuSpot])
  /\ RemoveMainMenuSpot None this
     = Done (tt, this, [EnsureFailed InRemoveMainMenuSpot]).
Proof.
  assert (Hadd : forall this0 h, Some h ∈ MainMenuSpotsInternal this0 ->
            AddNewMainMenuSpot (Some h) this0 = Done (tt, this0, [])).
  { intros this0 h Hin.
    unfold AddNewMainMenuSpot, bind, ensureMsgf, modify, ret. simpl.
    rewrite TArrayFacts.AddUnique_present by exact Hin.
    destruct this0. reflexivity. }
  split; [apply Hadd|]. split; [|split; reflexivity].
  intros h.
  exists (set_MainMenuSpotsInternal
            (TArray.AddUnique (Some h) (MainMenuSpotsInternal this)) this).
  split; [reflexivity|].
  assert (Hin : Some h
                 ∈ TArray.AddUnique (Some h) (MainMenuSpotsInternal this))
    by (apply TArrayFacts.elem_of_AddUnique; right; reflexivity).
  split; [exact Hin|]. apply Hadd. exact Hin.
Qed.

(** C7, what the code does.  [Deinitialize] empties the registry and resets
    the data asset; [ActiveMainMenuSpotIdx] keeps the value it had. *)
Theorem Deinitialize_keeps_ActiveMainMenuSpotIdx this :
  Deinitialize this
    = Done (tt,
            {| NewMainMenuDataAssetInternal := None;
               MainMenuSpotsInternal := [];
               ActiveMainMenuSpotIdx := ActiveMainMenuSpotIdx this |},
            []).
Proof. reflexivity. Qed.

(** C8.  When at most the spot [ActiveSpot] of the current level carries
    the active row index, removing it leaves a registry in which
    [MoveMainMenuSpot], in any direction, returns [nullptr] after a failed
    [ensureMsgf] and changes nothing; the removed spot is no longer
    registered. *)
Theorem RemoveMainMenuSpot_then_out_of_sync Incrementer this ActiveSpot :
  (forall h, Matching w this (GetLevelType w) h ->
     RowIndex (GetCinematicRow w h) = ActiveMainMenuSpotIdx this ->
     h = ActiveSpot) ->
  exists this1,
    RemoveMainMenuSpot (Some ActiveSpot) this = Done (tt, this1, [])
    /\ (Some ActiveSpot ∉ MainMenuSpotsInternal this1)
    /\ ActiveMainMenuSpotIdx this1 = ActiveMainMenuSpotIdx this
    /\ MoveMainMenuSpot w Incrementer this1
       = Done (None, this1, [EnsureFailed InMoveMainMenuSpot]).
Proof.
  intros Honly.
  exists (set_MainMenuSpotsInternal
            (TArray.RemoveSwap (Some ActiveSpot) (MainMenuSpotsInternal this))
            this).
  split; [reflexivity|]. split; [|split; [reflexivity|]].
  - simpl. rewrite TArrayFacts.elem_of_RemoveSwap. tauto.
  - apply MoveMainMenuSpot_not_found.
    rewrite <- ActiveInSync_iff. intros (h & [Hin Hlt] & Hrow).
    simpl in Hin, Hrow.
    apply TArrayFacts.elem_of_RemoveSwap in Hin. destruct Hin as [Hin Hne].
    apply Hne. f_equal. apply Honly; [split; assumption | exact Hrow].
Qed.

End SubsystemFacts.

(** * The properties on the menus of [Scenario] *)

Import Scenario.

(** Membership in a literal registry, by cases. *)
Ltac registry_cases H :=
  apply list_elem_of_In in H; simpl in H;
  repeat (destruct H as [H|H]; [try discriminate H; try injection H as <-|]);
  try contradiction.

Ltac registered :=
  split; [apply list_elem_of_In; simpl; tauto | reflexivity].

Lemma menu_UniqueRows ActiveIdx :
  UniqueRows (world Level1) (menu ActiveIdx) Level1.
Proof.
  intros h1 h2 [H1 L1] [H2 L2] Hrow.
  registry_cases H1; registry_cases H2;
    simpl in *; try discriminate; reflexivity.
Qed.

(** The two-level menu, active row 0 on the first level: forth to B, back
    to A. *)
Lemma MoveMainMenuSpot_round_trip_witness :
  SmallRegistry (menu 0)
  /\ ActiveInSync (world Level1) (menu 0)
  /\ exists Spot1 this1 t1 Spot2 this2 t2,
      MoveMainMenuSpot (world Level1) 1 (menu 0) = Done (Some Spot1, this1, t1)
      /\ MoveMainMenuSpot (world Level1) (-1) this1
         = Done (Some Spot2, this2, t2)
      /\ ActiveMainMenuSpotIdx this2 = ActiveMainMenuSpotIdx (menu 0)
      /\ this2 = menu 0.
Proof.
  assert (Hsmall : SmallRegistry (menu 0)) by reflexivity.
  assert (Hsync : ActiveInSync (world Level1) (menu 0)).
  { exists 0%nat. split; [registered | reflexivity]. }
  split; [exact Hsmall|]. split; [exact Hsync|].
  exact (MoveMainMenuSpot_round_trip (world Level1) (menu 0) Hsmall Hsync).
Defined.

(** Rows 0, 2, 5 with 5 active: a step forward wraps to row 0. *)
Lemma MoveMainMenuSpot_modular_step_witness :
  SmallRegistry (rows025 5)
  /\ SpotRowIndices (world Level1) (rows025 5) !! 2%nat = Some 5
  /\ exists NewSpot t,
      MoveMainMenuSpot (world Level1) 1 (rows025 5)
        = Done (Some NewSpot, set_ActiveMainMenuSpotIdx 0 (rows025 5), t).
Proof.
  assert (Hsmall : SmallRegistry (rows025 5)) by reflexivity.
  assert (Hpos : SpotRowIndices (world Level1) (rows025 5) !! 2%nat = Some 5)
    by reflexivity.
  split; [exact Hsmall|]. split; [exact Hpos|].
  destruct (MoveMainMenuSpot_modular_step (world Level1) 1 (rows025 5) 2
              Hsmall (or_introl eq_refl) Hpos)
    as (NewSpot & a & t & Hmove & _ & _ & Hwrap & _).
  rewrite (Hwrap eq_refl eq_refl eq_refl) in Hmove.
  exists NewSpot, t. exact Hmove.
Defined.

(** The two-level menu after a switch to the second level, active row
    still 1: no spot to cycle to. *)
Lemma MoveMainMenuSpot_out_of_sync_noop_witness :
  ~ ActiveInSync (world Level2) (menu 1)
  /\ MoveMainMenuSpot (world Level2) 1 (menu 1)
     = Done (None, menu 1, [EnsureFailed InMoveMainMenuSpot]).
Proof.
  assert (Hout : ~ ActiveInSync (world Level2) (menu 1)).
  { intros (h & [Hin Hlt] & Hrow).
    registry_cases Hin; simpl in *; discriminate. }
  split; [exact Hout|].
  exact (MoveMainMenuSpot_out_of_sync_noop (world Level2) 1 (menu 1)
           (or_introl Hout)).
Defined.

(** The two-level menu: after the step from A the active row is that of B,
    and B is the one spot of the first level with it. *)
Lemma MoveMainMenuSpot_selection_invariant_witness :
  UniqueRows (world Level1) (menu 0) Level1
  /\ Matching (world Level1) (menu 1) Level1 1%nat
  /\ RowIndex (GetCinematicRow (world Level1) 1%nat)
     = ActiveMainMenuSpotIdx (menu 1)
  /\ (forall h, Matching (world Level1) (menu 1) Level1 h ->
        RowIndex (GetCinematicRow (world Level1) h)
        = ActiveMainMenuSpotIdx (menu 1) ->
        h = 1%nat).
Proof.
  split; [apply menu_UniqueRows|].
  destruct (MoveMainMenuSpot_selection_invariant (world Level1) 1 (menu 0)
              (menu_UniqueRows 0)) as [Hinv _].
  apply (Hinv 1%nat (menu 1)
           [StopMasterSequence 0%nat; SetCinematicState 1%nat IdlePart]).
  reflexivity.
Defined.

(** Twins on the first level: the step stays within both arrays. *)
Lemma MoveMainMenuSpot_never_fatal_witness :
  SmallRegistry (twins 0)
  /\ (exists r, MoveMainMenuSpot (world Level1) (-1) (twins 0) = Done r)
  /\ Forall is_Some (CurrentLevelTypeSpots (world Level1) (twins 0))
  /\ (length (SpotRowIndices (world Level1) (twins 0))
       <= length (CurrentLevelTypeSpots (world Level1) (twins 0)))%nat.
Proof.
  assert (Hsmall : SmallRegistry (twins 0)) by reflexivity.
  split; [exact Hsmall|].
  exact (MoveMainMenuSpot_never_fatal (world Level1) (-1) (twins 0)
           Hsmall (or_intror eq_refl)).
Defined.

(** The first level of the two-level menu: A before B, strictly. *)
Lemma GetMainMenuSpotsByLevelType_sorted_witness :
  UniqueRows (world Level1) (menu 0) Level1
  /\ exists hs,
      GetMainMenuSpotsByLevelType (world Level1) (menu 0) [] Level1
        = Done (Some <$> hs)
      /\ StronglySorted (RowIndexLt (world Level1)) hs.
Proof.
  split; [apply menu_UniqueRows|].
  destruct (GetMainMenuSpotsByLevelType_sorted (world Level1) (menu 0) Level1)
    as (hs & Heq & _ & _ & _ & Hstrict).
  exists hs. split; [exact Heq|]. apply Hstrict, menu_UniqueRows.
Defined.

(** Adding B to the two-level menu again. *)
Lemma AddNewMainMenuSpot_idempotent_witness :
  Some 1%nat ∈ MainMenuSpotsInternal (menu 0)
  /\ AddNewMainMenuSpot (Some 1%nat) (menu 0) = Done (tt, menu 0, []).
Proof.
  assert (Hin : Some 1%nat ∈ MainMenuSpotsInternal (menu 0)).
  { apply list_elem_of_In. simpl. tauto. }
  split; [exact Hin|].
  destruct (AddNewMainMenuSpot_idempotent (menu 0)) as [Hadd _].
  exact (Hadd 1%nat Hin).
Defined.

(** Removing A, the active spot of the two-level menu. *)
Lemma RemoveMainMenuSpot_then_out_of_sync_witness :
  (forall h, Matching (world Level1) (menu 0) Level1 h ->
     RowIndex (GetCinematicRow (world Level1) h) = 0 -> h = 0%nat)
  /\ exists this1,
      RemoveMainMenuSpot (Some 0%nat) (menu 0) = Done (tt, this1, [])
      /\ (Some 0%nat ∉ MainMenuSpotsInternal this1)
      /\ ActiveMainMenuSpotIdx this1 = 0
      /\ MoveMainMenuSpot (world Level1) 1 this1
         = Done (None, this1, [EnsureFailed InMoveMainMenuSpot]).
Proof.
  assert (Honly : forall h, Matching (world Level1) (menu 0) Level1 h ->
            RowIndex (GetCinematicRow (world Level1) h) = 0 -> h = 0%nat).
  { intros h [Hin Hlt] Hrow.
    registry_cases Hin; simpl in *; try discriminate; reflexivity. }
  split; [exact Honly|].
  exact (RemoveMainMenuSpot_then_out_of_sync (world Level1) 1 (menu 0) 0%nat
           Honly).
Defined.

(** ** Counterexamples *)

(** C5, counterexample.  With two spots of one level on the same row the
    result of [GetMainMenuSpotsByLevelType] is not strictly ascending. *)
Lemma GetMainMenuSpotsByLevelType_not_strict :
  ~ exists hs,
      GetMainMenuSpotsByLevelType (world Level1) (twins 0) [] Level1
        = Done (Some <$> hs)
      /\ StronglySorted (RowIndexLt (world Level1)) hs.
Proof.
  intros (hs & Heq & Hstrict).
  vm_compute in Heq.
  destruct hs as [|h1 [|h2 [|h3 hs]]]; try discriminate Heq.
  injection Heq as <- <-.
  apply StronglySorted_inv in Hstrict. destruct Hstrict as [_ Hall].
  apply Forall_inv in Hall. unfold RowIndexLt in Hall. simpl in Hall. lia.
Qed.

(** C10, counterexample.  An output array that starts with A and B, hence
    not empty, gives the same result as an empty one. *)
Lemma GetMainMenuSpotsByLevelType_same_on_nonempty :
  [Some 0%nat; Some 1%nat] ≠ []
  /\ GetMainMenuSpotsByLevelType (world Level1) (menu 0)
       [Some 0%nat; Some 1%nat] Level1
     = GetMainMenuSpotsByLevelType (world Level1) (menu 0) [] Level1.
Proof. split; [discriminate | reflexivity]. Qed.

(** An output array that holds [nullptr] next to another element ends the
    process in the sort. *)
Example GetMainMenuSpotsByLevelType_nullptr :
  GetMainMenuSpotsByLevelType (world Level1) (menu 0) [None; Some 4%nat] Level1
  = Fatal NullDereference.
Proof. reflexivity. Qed.

(** C7, at a subsystem whose active row index is 1: after [Deinitialize]
    it is still 1. *)
Example Deinitialize_menu_1 :
  Deinitialize (menu 1)
  = Done (tt,
          {| NewMainMenuDataAssetInternal := None;
             MainMenuSpotsInternal := [];
             ActiveMainMenuSpotIdx := 1 |},
          []).
Proof. reflexivity. Qed.

(** Whatever the initial value of [ActiveMainMenuSpotIdx] is, [Deinitialize]
    does not bring every subsystem back to it. *)
Lemma Deinitialize_restores_no_default :
  ~ exists Default,
      forall this this' t,
        Deinitialize this = Done (tt, this', t) ->
        ActiveMainMenuSpotIdx this' = Default.
Proof.
  intros (d & Hd).
  pose proof (Hd (menu 0) _ _ eq_refl) as H0.
  pose proof (Hd (menu 1) _ _ eq_refl) as H1.
  simpl in H0, H1. lia.
Qed.

(** The scenario of the two-level menu: forth to B, forth again to A. *)
Example menu_cycle_forth_twice :
  MoveMainMenuSpot (world Level1) 1 (menu 0)
  = Done (Some 1%nat, menu 1,
          [StopMasterSequence 0%nat; SetCinematicState 1%nat IdlePart])
  /\ MoveMainMenuSpot (world Level1) 1 (menu 1)
     = Done (Some 0%nat, menu 0,
             [StopMasterSequence 1%nat; SetCinematicState 0%nat IdlePart]).
Proof. split; reflexivity. Qed.

(** One spot on the first level: either direction returns it and nothing
    changes. *)
Example single_cycles_to_itself :
  MoveMainMenuSpot (world Level1) 1 (single 1)
  = Done (Some 1%nat, single 1,
          [StopMasterSequence 1%nat; SetCinematicState 1%nat IdlePart])
  /\ MoveMainMenuSpot (world Level1) (-1) (single 1)
     = Done (Some 1%nat, single 1,
             [StopMasterSequence 1%nat; SetCinematicState 1%nat IdlePart]).
Proof. split; reflexivity. Qed.

(** A stride of five steps back over three rows leaves the array: the range
    check of [SpotRowIndices[NewSpotIndex]] ends the process. *)
Example long_stride_is_fatal :
  MoveMainMenuSpot (world Level1) (-5) (rows025 0) = Fatal RangeCheckFailed.
Proof. reflexivity. Qed.

(** With the twins registered the row indices are fewer than the
    candidates: the step from row 0 selects row 1 and returns a spot of
    row 0. *)
Example crowded_returns_a_twin :
  exists NewSpot t,
    MoveMainMenuSpot (world Level1) 1 (crowded 0)
      = Done (Some NewSpot, crowded 1, t)
    /\ RowIndex (GetCinematicRow (world Level1) NewSpot) = 0.
Proof. eexists _, _. split; reflexivity. Qed.

(** The active spot is looked up across the levels: in the two-level menu
    with active row 0 it is A, also on the second level. *)
Example active_spot_of_menu :
  GetActiveMainMenuSpotComponent (world Level2) (menu 0) = Some 0%nat.
Proof. reflexivity. Qed.

(** * Further properties of the registry, the getter and the cycle *)

(** ** More on [RemoveSwap] *)

Module TArrayRemoveFacts.
Import TArray.

Section facts.
Context {A : Type} `{EqDecision A}.
Implicit Types (l : list A) (x y : A).

(** Without a match the loop leaves the array as it is, order included. *)
Lemma RemoveSwap_loop_absent fuel x l1 l2 :
  x ∉ l2 -> RemoveSwap_loop fuel x (length l1) (l1 ++ l2) = l1 ++ l2.
Proof.
  revert l1 l2. induction fuel as [|fuel IH]; intros l1 l2 Hx; [reflexivity|].
  simpl. rewrite lookup_app_r by lia.
  replace (length l1 - length l1)%nat with O by lia.
  destruct l2 as [|a l2]; [reflexivity|]. simpl.
  apply not_elem_of_cons in Hx. destruct Hx as [Hne Hx].
  destruct (decide (a = x)) as [->|_]; [contradiction|].
  replace (l1 ++ a :: l2) with ((l1 ++ [a]) ++ l2)
    by (rewrite <- app_assoc; reflexivity).
  replace (S (length l1)) with (length (l1 ++ [a]))
    by (rewrite length_app; simpl; lia).
  apply IH. exact Hx.
Qed.

Lemma RemoveSwap_absent x l : x ∉ l -> RemoveSwap x l = l.
Proof. intros Hx. apply (RemoveSwap_loop_absent (length l) x [] l Hx). Qed.

(** The item at the end, and nowhere else: the loop cuts it off. *)
Lemma RemoveSwap_loop_snoc fuel x l1 l2 :
  x ∉ l2 -> (length l2 < fuel)%nat ->
  RemoveSwap_loop fuel x (length l1) (l1 ++ l2 ++ [x]) = l1 ++ l2.
Proof.
  revert fuel l1. induction l2 as [|a l2 IH]; intros fuel l1 Hx Hfuel.
  - destruct fuel as [|fuel]; [simpl in Hfuel; lia|].
    simpl. rewrite lookup_app_r by lia.
    replace (length l1 - length l1)%nat with O by lia. simpl.
    destruct (decide (x = x)) as [_|Hn]; [|contradiction].
    rewrite TArrayFacts.RemoveAtSwap_last, app_nil_r.
    rewrite <- (app_nil_r l1) at 2 3.
    apply RemoveSwap_loop_absent, not_elem_of_nil.
  - destruct fuel as [|fuel]; [simpl in Hfuel; lia|].
    simpl in Hfuel. simpl. rewrite lookup_app_r by lia.
    replace (length l1 - length l1)%nat with O by lia. simpl.
    apply not_elem_of_cons in Hx. destruct Hx as [Hne Hx].
    destruct (decide (a = x)) as [->|_]; [contradiction|].
    replace (l1 ++ a :: l2 ++ [x]) with ((l1 ++ [a]) ++ l2 ++ [x])
      by (rewrite <- app_assoc; reflexivity).
    replace (S (length l1)) with (length (l1 ++ [a]))
      by (rewrite length_app; simpl; lia).
    rewrite IH by (assumption || lia).
    rewrite <- app_assoc. reflexivity.
Qed.

Lemma RemoveSwap_snoc x l : x ∉ l -> RemoveSwap x (l ++ [x]) = l.
Proof.
  intros Hx. unfold RemoveSwap.
  apply (RemoveSwap_loop_snoc (length (l ++ [x])) x [] l Hx).
  rewrite length_app. simpl. lia.
Qed.

Lemma RemoveSwap_NoDup x l : NoDup l -> NoDup (RemoveSwap x l).
Proof.
  intros Hnd. rewrite TArrayFacts.RemoveSwap_perm. apply NoDup_filter, Hnd.
Qed.

Lemma filter_ne_absent x l : x ∉ l -> filter (fun y => y ≠ x) l = l.
Proof.
  induction l as [|a l IH]; intros Hx; [reflexivity|].
  apply not_elem_of_cons in Hx. destruct Hx as [Hne Hx].
  rewrite filter_cons_True by congruence. f_equal. apply IH, Hx.
Qed.

Lemma filter_ne_length x l :
  NoDup l -> x ∈ l -> S (length (filter (fun y => y ≠ x) l)) = length l.
Proof.
  induction 1 as [|a l Hna Hnd IH]; intros Hx.
  - apply elem_of_nil in Hx. contradiction.
  - apply elem_of_cons in Hx. destruct (decide (a = x)) as [->|Hne].
    + rewrite filter_cons_False by (intros Hn; apply Hn; reflexivity).
      simpl. f_equal. f_equal. apply filter_ne_absent, Hna.
    + rewrite filter_cons_True by exact Hne. simpl. f_equal.
      apply IH. destruct Hx as [->|Hx]; [contradiction | exact Hx].
Qed.

(** In an array without repetition [RemoveSwap] of a present item shortens
    the array by one. *)
Lemma RemoveSwap_length x l :
  NoDup l -> x ∈ l -> S (length (RemoveSwap x l)) = length l.
Proof.
  intros Hnd Hx. rewrite TArrayFacts.RemoveSwap_perm.
  apply filter_ne_length; assumption.
Qed.

End facts.
End TArrayRemoveFacts.

(** ** The registry and the getter of the active spot *)

Section RegistryProperties.
Context {ELevelType : Type} `{EqDecision ELevelType}.
Context `{TArray.ArraySort}.
Variable w : World ELevelType.

Implicit Types (this : UNMMSubsystem) (h : nat) (hs : list nat).

Local Abbreviation row h := (RowIndex (GetCinematicRow w h)).
Local Abbreviation Active this := (ActiveMainMenuSpotIdx this).
Local Abbreviation Registry this := (MainMenuSpotsInternal this).

(** The scan of [GetActiveMainMenuSpotComponent] stops at the first
    non-null entry with the row index it looks for. *)
Lemma FindActiveSpot_Some a (l : list (option nat)) h :
  FindActiveSpot w a l = Some h ->
  exists i,
    l !! i = Some (Some h) /\ row h = a
    /\ forall j h', (j < i)%nat -> l !! j = Some (Some h') -> row h' ≠ a.
Proof.
  induction l as [|[h0|] l IH]; simpl; [discriminate| |].
  - destruct (decide (row h0 = a)) as [Heq|Hne].
    + intros [= <-]. exists O. split; [reflexivity|]. split; [exact Heq|].
      intros j h' Hj. lia.
    + intros Hf. destruct (IH Hf) as (i & Hi & Hrow & Hfirst).
      exists (S i). split; [exact Hi|]. split; [exact Hrow|].
      intros [|j] h' Hj; simpl.
      * intros [= <-]. exact Hne.
      * apply Hfirst. lia.
  - intros Hf. destruct (IH Hf) as (i & Hi & Hrow & Hfirst).
    exists (S i). split; [exact Hi|]. split; [exact Hrow|].
    intros [|j] h' Hj; simpl; [discriminate|]. apply Hfirst. lia.
Qed.

Lemma FindActiveSpot_None a (l : list (option nat)) :
  FindActiveSpot w a l = None <-> forall h, Some h ∈ l -> row h ≠ a.
Proof.
  induction l as [|[h0|] l IH]; simpl.
  - split; [|reflexivity]. intros _ h Hh. apply elem_of_nil in Hh.
    contradiction.
  - destruct (decide (row h0 = a)) as [Heq|Hne].
    + split; [discriminate|]. intros Hall. exfalso.
      apply (Hall h0); [constructor | exact Heq].
    + rewrite IH. split.
      * intros Hall h Hh. apply elem_of_cons in Hh.
        destruct Hh as [[= ->]|Hh]; [exact Hne | apply Hall, Hh].
      * intros Hall h Hh. apply Hall. constructor. exact Hh.
  - rewrite IH. split.
    + intros Hall h Hh. apply elem_of_cons in Hh.
      destruct Hh as [[=]|Hh]. apply Hall, Hh.
    + intros Hall h Hh. apply Hall. constructor. exact Hh.
Qed.

(** X1.  [GetActiveMainMenuSpotComponent] returns the first registered
    non-null spot, of whatever level type, whose row index is the active
    one, and [nullptr] exactly when no registered spot has it. *)
Theorem GetActiveMainMenuSpotComponent_first this :
  (forall h, GetActiveMainMenuSpotComponent w this = Some h ->
     exists i,
       Registry this !! i = Some (Some h)
       /\ RowIndex (GetCinematicRow w h) = ActiveMainMenuSpotIdx this
       /\ forall j h', (j < i)%nat ->
            Registry this !! j = Some (Some h') ->
            RowIndex (GetCinematicRow w h') ≠ ActiveMainMenuSpotIdx this)
  /\ (GetActiveMainMenuSpotComponent w this = None
      <-> forall h, Some h ∈ Registry this ->
            RowIndex (GetCinematicRow w h) ≠ ActiveMainMenuSpotIdx this).
Proof.
  unfold GetActiveMainMenuSpotComponent. split.
  - intros h. apply FindActiveSpot_Some.
  - apply FindActiveSpot_None.
Qed.

(** Whatever entry carries the row index alone is the one found. *)
Lemma FindActiveSpot_only a (l : list (option nat)) h :
  Some h ∈ l -> row h = a ->
  (forall h', Some h' ∈ l -> row h' = a -> h' = h) ->
  FindActiveSpot w a l = Some h.
Proof.
  intros Hin Hrow Honly.
  destruct (FindActiveSpot w a l) as [h'|] eqn:Hf.
  - destruct (FindActiveSpot_Some _ _ _ Hf) as (i & Hi & Hr & _).
    f_equal. apply Honly; [|exact Hr].
    apply list_elem_of_lookup. eauto.
  - exfalso. exact (proj1 (FindActiveSpot_None a l) Hf h Hin Hrow).
Qed.

(** X2.  [RemoveMainMenuSpot] of a spot that is not registered changes
    nothing at all, the order of the registry included, and reports
    nothing. *)
Theorem RemoveMainMenuSpot_unregistered this h :
  Some h ∉ Registry this ->
  RemoveMainMenuSpot (Some h) this = Done (tt, this, []).
Proof.
  intros Hout.
  unfold RemoveMainMenuSpot, bind, ensureMsgf, modify, ret. simpl.
  rewrite TArrayRemoveFacts.RemoveSwap_absent by exact Hout.
  destruct this. reflexivity.
Qed.

(** X3.  Registering a spot that is not registered and removing it again
    gives back the subsystem as it was, the order of the registry
    included. *)
Theorem Add_then_Remove_restores this h :
  Some h ∉ Registry this ->
  (AddNewMainMenuSpot (Some h) ;; RemoveMainMenuSpot (Some h)) this
  = Done (tt, this, []).
Proof.
  intros Hout.
  unfold AddNewMainMenuSpot, RemoveMainMenuSpot, bind, ensureMsgf, modify,
    ret. simpl.
  rewrite TArrayFacts.AddUnique_absent by exact Hout.
  rewrite TArrayRemoveFacts.RemoveSwap_snoc by exact Hout.
  destruct this. reflexivity.
Qed.

(** X4.  [RemoveMainMenuSpot] of a non-null spot removes every entry equal
    to it and no other: the registry afterwards is, up to order, the old
    one without the spot; selection and data asset are untouched; in a
    registry without repetition that holds the spot the registry is shorter
    by one. *)
Theorem RemoveMainMenuSpot_effect this h :
  exists this1,
    RemoveMainMenuSpot (Some h) this = Done (tt, this1, [])
    /\ Registry this1 ≡ₚ filter (fun p => p ≠ Some h) (Registry this)
    /\ (forall p, p ∈ Registry this1 <-> p ∈ Registry this /\ p ≠ Some h)
    /\ ActiveMainMenuSpotIdx this1 = ActiveMainMenuSpotIdx this
    /\ NewMainMenuDataAssetInternal this1 = NewMainMenuDataAssetInternal this
    /\ (NoDup (Registry this) -> Some h ∈ Registry this ->
        S (length (Registry this1)) = length (Registry this)).
Proof.
  exists (set_MainMenuSpotsInternal
            (TArray.RemoveSwap (Some h) (Registry this)) this).
  split; [reflexivity|]. simpl.
  split; [apply TArrayFacts.RemoveSwap_perm|].
  split; [intros p; apply TArrayFacts.elem_of_RemoveSwap|].
  split; [reflexivity|]. split; [reflexivity|].
  apply TArrayRemoveFacts.RemoveSwap_length.
Qed.

(** X5.  [AddNewMainMenuSpot] of a spot that is not registered appends it:
    the entries that were there keep their positions, so a spot that
    [GetActiveMainMenuSpotComponent] returned before is returned after. *)
Theorem AddNewMainMenuSpot_appends this h :
  Some h ∉ Registry this ->
  exists this1,
    AddNewMainMenuSpot (Some h) this = Done (tt, this1, [])
    /\ Registry this1 = Registry this ++ [Some h]
    /\ ActiveMainMenuSpotIdx this1 = ActiveMainMenuSpotIdx this
    /\ (forall a, GetActiveMainMenuSpotComponent w this = Some a ->
          GetActiveMainMenuSpotComponent w this1 = Some a).
Proof.
  intros Hout.
  exists (set_MainMenuSpotsInternal (Registry this ++ [Some h]) this).
  split.
  { unfold AddNewMainMenuSpot, bind, ensureMsgf, modify, ret. simpl.
    rewrite TArrayFacts.AddUnique_absent by exact Hout. reflexivity. }
  split; [reflexivity|]. split; [reflexivity|].
  unfold GetActiveMainMenuSpotComponent. simpl.
  generalize (Active this). intros a0 a.
  induction (Registry this) as [|[h0|] l IH]; simpl; [discriminate| |].
  - destruct (decide (row h0 = a0)); [tauto|]. apply IH.
    intros Hin. apply Hout. constructor. exact Hin.
  - apply IH. intros Hin. apply Hout. constructor. exact Hin.
Qed.

(** X6.  Removing a spot other than the one that alone carries the active
    row index leaves [GetActiveMainMenuSpotComponent] as it was, although
    the removal may reorder the registry. *)
Theorem GetActiveMainMenuSpotComponent_after_Remove this a h :
  GetActiveMainMenuSpotComponent w this = Some a ->
  (forall h', Some h' ∈ Registry this ->
     RowIndex (GetCinematicRow w h') = ActiveMainMenuSpotIdx this -> h' = a) ->
  h ≠ a ->
  exists this1,
    RemoveMainMenuSpot (Some h) this = Done (tt, this1, [])
    /\ GetActiveMainMenuSpotComponent w this1 = Some a.
Proof.
  intros Hget Honly Hne.
  exists (set_MainMenuSpotsInternal
            (TArray.RemoveSwap (Some h) (Registry this)) this).
  split; [reflexivity|].
  unfold GetActiveMainMenuSpotComponent in *. simpl.
  destruct (FindActiveSpot_Some _ _ _ Hget) as (i & Hi & Hrow & _).
  apply FindActiveSpot_only.
  - apply TArrayFacts.elem_of_RemoveSwap. split; [|congruence].
    apply list_elem_of_lookup. eauto.
  - exact Hrow.
  - intros h' Hin. apply TArrayFacts.elem_of_RemoveSwap in Hin.
    apply Honly, Hin.
Qed.

(** X7.  A registry without [nullptr] and without repetition stays so
    under [AddNewMainMenuSpot] and [RemoveMainMenuSpot], with whatever
    pointer, and [Deinitialize] leaves such a registry. *)
Theorem RegistryClean_kept this p :
  (RegistryClean this ->
   forall this1 t,
     AddNewMainMenuSpot p this = Done (tt, this1, t) -> RegistryClean this1)
  /\ (RegistryClean this ->
      forall this1 t,
        RemoveMainMenuSpot p this = Done (tt, this1, t) ->
        RegistryClean this1)
  /\ (forall this1 t,
        Deinitialize this = Done (tt, this1, t) -> RegistryClean this1).
Proof.
  unfold RegistryClean. split; [|split].
  - intros [Hnd Hnn] this1 t.
    destruct p as [h|]; intros [= <- _]; simpl; [|tauto].
    split; [apply TArrayFacts.AddUnique_NoDup, Hnd|].
    rewrite TArrayFacts.elem_of_AddUnique. intros [?|[=]]. contradiction.
  - intros [Hnd Hnn] this1 t.
    destruct p as [h|]; intros [= <- _]; simpl; [|tauto].
    split; [apply TArrayRemoveFacts.RemoveSwap_NoDup, Hnd|].
    rewrite TArrayFacts.elem_of_RemoveSwap. tauto.
  - intros this1 t [= <- _]. simpl. split; [constructor|].
    apply not_elem_of_nil.
Qed.

(** X8.  What is registered is found, what is removed is not: after
    [AddNewMainMenuSpot] the spot is in the result of
    [GetMainMenuSpotsByLevelType] for its level type, after
    [RemoveMainMenuSpot] it is in the result for no level type, and neither
    call changes whether another spot is in a result. *)
Theorem query_after_Add_and_Remove this h lt :
  (exists this1 hs1,
      AddNewMainMenuSpot (Some h) this = Done (tt, this1, [])
      /\ GetMainMenuSpotsByLevelType w this1 [] lt = Done (Some <$> hs1)
      /\ (h ∈ hs1 <-> LevelType (GetCinematicRow w h) = lt)
      /\ (forall h', h' ≠ h -> (h' ∈ hs1 <-> Matching w this lt h')))
  /\ (exists this2 hs2,
        RemoveMainMenuSpot (Some h) this = Done (tt, this2, [])
        /\ GetMainMenuSpotsByLevelType w this2 [] lt = Done (Some <$> hs2)
        /\ (h ∉ hs2)
        /\ (forall h', h' ≠ h -> (h' ∈ hs2 <-> Matching w this lt h'))).
Proof.
  split.
  - set (this1 := set_MainMenuSpotsInternal
                    (TArray.AddUnique (Some h) (Registry this)) this).
    destruct (GetMainMenuSpotsByLevelType_empty w this1 lt)
      as (hs1 & Heq & Hel & _).
    exists this1, hs1. split; [reflexivity|]. split; [exact Heq|].
    unfold Matching in *. simpl in Hel. split.
    + rewrite Hel, TArrayFacts.elem_of_AddUnique. tauto.
    + intros h' Hne. rewrite Hel, TArrayFacts.elem_of_AddUnique.
      split; [|tauto]. intros [[?|[= ?]] ?]; [tauto | contradiction].
  - set (this2 := set_MainMenuSpotsInternal
                    (TArray.RemoveSwap (Some h) (Registry this)) this).
    destruct (GetMainMenuSpotsByLevelType_empty w this2 lt)
      as (hs2 & Heq & Hel & _).
    exists this2, hs2. split; [reflexivity|]. split; [exact Heq|].
    unfold Matching in *. simpl in Hel. split.
    + rewrite Hel, TArrayFacts.elem_of_RemoveSwap. tauto.
    + intros h' Hne. rewrite Hel, TArrayFacts.elem_of_RemoveSwap.
      split; [tauto|]. intros [? ?]. split; [|assumption].
      split; [assumption | congruence].
Qed.

(** X9.  After [Deinitialize] nothing is left to find: the result of
    [GetMainMenuSpotsByLevelType] is empty for every level type,
    [GetActiveMainMenuSpotComponent] returns [nullptr], and
    [MoveMainMenuSpot] with any incrementer returns [nullptr] after a
    failed [ensureMsgf]. *)
Theorem Deinitialize_then_nothing this :
  exists this0,
    Deinitialize this = Done (tt, this0, [])
    /\ (forall lt, GetMainMenuSpotsByLevelType w this0 [] lt = Done [])
    /\ GetActiveMainMenuSpotComponent w this0 = None
    /\ (forall Incrementer,
          MoveMainMenuSpot w Incrementer this0
          = Done (None, this0, [EnsureFailed InMoveMainMenuSpot])).
Proof.
  eexists. split; [reflexivity|].
  split; [|split; [reflexivity|]].
  - intros lt. unfold GetMainMenuSpotsByLevelType, SortSpots. simpl.
    rewrite (proj1 (Permutation_nil_r _) (TArray.Sort_perm _ _ [])).
    reflexivity.
  - intros Incrementer. apply MoveMainMenuSpot_not_found.
    rewrite elem_of_SpotRowIndices. intros (h & [Hin _] & _).
    simpl in Hin. apply elem_of_nil in Hin. exact Hin.
Qed.

Lemma CollectSpots_skips_nullptr lt (l OutSpots : list (option nat)) :
  CollectSpots w lt (filter is_Some l) OutSpots = CollectSpots w lt l OutSpots.
Proof.
  revert OutSpots. induction l as [|[h0|] l IH]; intros OutSpots;
    [reflexivity| |].
  - rewrite filter_cons_True by eauto. simpl.
    destruct (decide (LevelType (GetCinematicRow w h0) = lt)); apply IH.
  - rewrite filter_cons_False by (intros [? [=]]). simpl. apply IH.
Qed.

Lemma FindActiveSpot_skips_nullptr a (l : list (option nat)) :
  FindActiveSpot w a (filter is_Some l) = FindActiveSpot w a l.
Proof.
  induction l as [|[h0|] l IH]; [reflexivity| |].
  - rewrite filter_cons_True by eauto. simpl.
    destruct (decide (row h0 = a)); [reflexivity | apply IH].
  - rewrite filter_cons_False by (intros [? [=]]). simpl. apply IH.
Qed.

(** X10.  Entries of the registry that are [nullptr] count for nothing:
    [GetMainMenuSpotsByLevelType], on any output array, and
    [GetActiveMainMenuSpotComponent] give what they give on the registry
    without these entries, and so do the two arrays of
    [MoveMainMenuSpot]. *)
Theorem nullptr_entries_are_skipped this :
  let compact :=
    set_MainMenuSpotsInternal (filter is_Some (Registry this)) this in
  (forall OutSpots lt,
      GetMainMenuSpotsByLevelType w compact OutSpots lt
      = GetMainMenuSpotsByLevelType w this OutSpots lt)
  /\ GetActiveMainMenuSpotComponent w compact
     = GetActiveMainMenuSpotComponent w this
  /\ CurrentLevelTypeSpots w compact = CurrentLevelTypeSpots w this
  /\ SpotRowIndices w compact = SpotRowIndices w this.
Proof.
  intros compact.
  assert (Hq : forall OutSpots lt,
             GetMainMenuSpotsByLevelType w compact OutSpots lt
             = GetMainMenuSpotsByLevelType w this OutSpots lt).
  { intros OutSpots lt. unfold GetMainMenuSpotsByLevelType. f_equal.
    apply CollectSpots_skips_nullptr. }
  split; [exact Hq|]. split; [|split].
  - apply FindActiveSpot_skips_nullptr.
  - unfold CurrentLevelTypeSpots. rewrite Hq. reflexivity.
  - unfold SpotRowIndices, CurrentLevelTypeSpots. rewrite Hq. reflexivity.
Qed.

End RegistryProperties.

(** ** The cycle: what a call may do, strides, and sequences of steps *)

Section CycleProperties.
Context {ELevelType : Type} `{EqDecision ELevelType}.
Context `{TArray.ArraySort}.
Variable w : World ELevelType.

Implicit Types (this : UNMMSubsystem) (h : nat) (hs : list nat).

Local Abbreviation row h := (RowIndex (GetCinematicRow w h)).
Local Abbreviation Active this := (ActiveMainMenuSpotIdx this).
Local Abbreviation Registry this := (MainMenuSpotsInternal this).
Local Abbreviation Rows this := (SpotRowIndices w this).
Local Abbreviation Spots this := (CurrentLevelTypeSpots w this).

(** The two ways in which [MoveMainMenuSpot] returns. *)
Lemma MoveMainMenuSpot_Done_inv Incrementer this r this' t :
  MoveMainMenuSpot w Incrementer this = Done (r, this', t) ->
  ((Active this ∉ Rows this)
   /\ r = None /\ this' = this /\ t = [EnsureFailed InMoveMainMenuSpot])
  \/ (exists pos np a h0 h1,
        Rows this !! pos = Some (Active this)
        /\ NewSpotIndex w Incrementer this pos = Z.of_nat np
        /\ Rows this !! np = Some a
        /\ Spots this !! pos = Some (Some h0)
        /\ Spots this !! np = Some (Some h1)
        /\ r = Some h1
        /\ this' = set_ActiveMainMenuSpotIdx a this
        /\ t = [StopMasterSequence h0; SetCinematicState h1 IdlePart]).
Proof.
  intros Hmove.
  destruct (decide (Active this ∈ Rows this)) as [Hin|Hout].
  2: { left. rewrite MoveMainMenuSpot_not_found in Hmove by exact Hout.
       injection Hmove as <- <- <-. auto. }
  right. apply list_elem_of_lookup in Hin. destruct Hin as [pos Hpos].
  destruct (TArray.IsValidIndex (Rows this)
              (NewSpotIndex w Incrementer this pos)) eqn:Hvalid.
  2: { rewrite (MoveMainMenuSpot_bad_index w _ _ pos Hpos Hvalid) in Hmove.
       discriminate. }
  unfold TArray.IsValidIndex, TArray.Num in Hvalid.
  apply andb_true_iff in Hvalid.
  rewrite !bool_decide_eq_true in Hvalid. destruct Hvalid as [Hlo Hhi].
  set (m := NewSpotIndex w Incrementer this pos) in *.
  destruct (lookup_lt_is_Some_2 (Rows this) (Z.to_nat m)) as [a Ha]; [lia|].
  assert (Hm : m = Z.of_nat (Z.to_nat m)) by lia.
  destruct (MoveMainMenuSpot_in_sync w Incrementer this pos (Z.to_nat m) a
              Hpos Hm Ha) as (h0 & h1 & H0 & H1 & Heq).
  rewrite Heq in Hmove. injection Hmove as <- <- <-.
  exists pos, (Z.to_nat m), a, h0, h1. auto 10.
Qed.

Lemma Spots_lookup_Matching this i h :
  Spots this !! i = Some (Some h) -> Matching w this (GetLevelType w) h.
Proof.
  destruct (CurrentLevelTypeSpots_spec w this) as (hs & -> & _ & Hel & _).
  rewrite list_lookup_fmap. intros Hi. apply Hel.
  destruct (hs !! i) as [h'|] eqn:Hh; simpl in Hi; [|discriminate].
  injection Hi as ->. apply list_elem_of_lookup. eauto.
Qed.

(** X11.  A call of [MoveMainMenuSpot] that returns, with whatever
    incrementer, never touches the registry or the data asset.  Either it
    returns [nullptr], changes nothing and only reports the failed
    [ensureMsgf]; or it returns a spot and has made exactly two calls, in
    this order: [StopMasterSequence] on one registered spot of the current
    level and [SetCinematicState(IdlePart)] on the returned one, which is a
    registered spot of the current level as well. *)
Theorem MoveMainMenuSpot_frame Incrementer this r this' t :
  MoveMainMenuSpot w Incrementer this = Done (r, this', t) ->
  Registry this' = Registry this
  /\ NewMainMenuDataAssetInternal this' = NewMainMenuDataAssetInternal this
  /\ ((r = None /\ this' = this /\ t = [EnsureFailed InMoveMainMenuSpot])
      \/ (exists OldSpot NewSpot,
            r = Some NewSpot
            /\ t = [StopMasterSequence OldSpot;
                    SetCinematicState NewSpot IdlePart]
            /\ Matching w this (GetLevelType w) OldSpot
            /\ Matching w this (GetLevelType w) NewSpot)).
Proof.
  intros Hmove.
  destruct (MoveMainMenuSpot_Done_inv _ _ _ _ _ Hmove)
    as [(_ & -> & -> & ->)
       |(pos & np & a & h0 & h1 & _ & _ & _ & H0 & H1 & -> & -> & ->)].
  - split; [reflexivity|]. split; [reflexivity|]. left. auto.
  - split; [reflexivity|]. split; [reflexivity|]. right.
    exists h0, h1. split; [reflexivity|]. split; [reflexivity|].
    split; eapply Spots_lookup_Matching; eassumption.
Qed.

(** X12.  When no two spots of the current level share a row index, a call
    that returns a spot has stopped the spot of the current level that
    carries the old active row index and has put to idle the spot that
    carries the new one. *)
Theorem MoveMainMenuSpot_stops_active Incrementer this NewSpot this' t :
  UniqueRows w this (GetLevelType w) ->
  MoveMainMenuSpot w Incrementer this = Done (Some NewSpot, this', t) ->
  exists OldSpot,
    t = [StopMasterSequence OldSpot; SetCinematicState NewSpot IdlePart]
    /\ Matching w this (GetLevelType w) OldSpot
    /\ RowIndex (GetCinematicRow w OldSpot) = ActiveMainMenuSpotIdx this
    /\ Matching w this (GetLevelType w) NewSpot
    /\ RowIndex (GetCinematicRow w NewSpot) = ActiveMainMenuSpotIdx this'.
Proof.
  intros Huniq Hmove.
  destruct (MoveMainMenuSpot_Done_inv _ _ _ _ _ Hmove)
    as [(_ & [=] & _)
       |(pos & np & a & h0 & h1 & Hpos & _ & Ha & H0 & H1 & [= <-] & -> & ->)].
  exists h0. split; [reflexivity|].
  pose proof (Spots_lookup_Matching _ _ _ H0) as Hm0.
  pose proof (Spots_lookup_Matching _ _ _ H1) as Hm1.
  destruct (CurrentLevelTypeSpots_spec w this) as (hs & Hs & _).
  rewrite (SpotRowIndices_unique w this hs Huniq Hs) in Hpos, Ha.
  rewrite Hs in H0, H1.
  rewrite list_lookup_fmap in Hpos. rewrite list_lookup_fmap in Ha.
  rewrite list_lookup_fmap in H0. rewrite list_lookup_fmap in H1.
  destruct (hs !! pos) as [x0|]; [|discriminate].
  destruct (hs !! np) as [x1|]; [|discriminate].
  simpl in *. injection H0 as ->. injection H1 as ->.
  injection Hpos as Hpos. injection Ha as Ha. auto.
Qed.

(** X13.  When no two spots of the current level share a row index, after
    a call that returns a spot [GetActiveMainMenuSpotComponent] finds a
    spot with the row index of the returned one; it is the returned spot
    itself unless it belongs to another level. *)
Theorem GetActiveMainMenuSpotComponent_after_Move
  Incrementer this NewSpot this' t :
  UniqueRows w this (GetLevelType w) ->
  MoveMainMenuSpot w Incrementer this = Done (Some NewSpot, this', t) ->
  exists h,
    GetActiveMainMenuSpotComponent w this' = Some h
    /\ RowIndex (GetCinematicRow w h) = RowIndex (GetCinematicRow w NewSpot)
    /\ (LevelType (GetCinematicRow w h) = GetLevelType w -> h = NewSpot).
Proof.
  intros Huniq Hmove.
  destruct (MoveMainMenuSpot_Done_inv _ _ _ _ _ Hmove)
    as [(_ & [=] & _)
       |(pos & np & a & h0 & h1 & Hpos & _ & Ha & H0 & H1 & [= <-] & -> & ->)].
  pose proof (Spots_lookup_Matching _ _ _ H1) as Hm1.
  assert (Hrow : row NewSpot = a).
  { destruct (CurrentLevelTypeSpots_spec w this) as (hs & Hs & _).
    rewrite (SpotRowIndices_unique w this hs Huniq Hs) in Ha.
    rewrite Hs in H1.
    rewrite list_lookup_fmap in Ha. rewrite list_lookup_fmap in H1.
    destruct (hs !! np) as [x1|]; [|discriminate].
    simpl in *. injection H1 as ->. injection Ha as Ha. exact Ha. }
  unfold GetActiveMainMenuSpotComponent. simpl.
  destruct (FindActiveSpot w a (Registry this)) as [h|] eqn:Hf.
  - destruct (FindActiveSpot_Some w _ _ _ Hf) as (i & Hi & Hr & _).
    exists h. split; [reflexivity|]. split; [congruence|].
    intros Hlt. apply Huniq; [|exact Hm1|congruence].
    split; [|exact Hlt]. apply list_elem_of_lookup. eauto.
  - exfalso. destruct Hm1 as [Hin _].
    exact (proj1 (FindActiveSpot_None w a _) Hf NewSpot Hin Hrow).
Qed.

(** The index computed when neither 32-bit sum wraps. *)
Lemma NewSpotIndex_no_wrap Incrementer this pos :
  Int32.in_range (Z.of_nat pos + Incrementer) ->
  Int32.in_range (Z.of_nat pos + Incrementer + TArray.Num (Rows this)) ->
  NewSpotIndex w Incrementer this pos
  = Z.rem (Z.of_nat pos + Incrementer + TArray.Num (Rows this))
      (TArray.Num (Rows this)).
Proof.
  intros H1 H2. unfold NewSpotIndex.
  rewrite (Int32Facts.add_in_range (Z.of_nat pos)) by exact H1.
  rewrite Int32Facts.add_in_range by exact H2. reflexivity.
Qed.

(** X14.  A stride of any length is taken modularly as long as the sum
    [Position + Incrementer + Num] is not negative and fits [int32]: from
    position [pos] the call selects the row index at
    [(pos + Incrementer + count) mod count] and returns the candidate at
    that position. *)
Theorem MoveMainMenuSpot_stride Incrementer this pos :
  SmallRegistry this ->
  SpotRowIndices w this !! pos = Some (ActiveMainMenuSpotIdx this) ->
  0 <= Z.of_nat pos + Incrementer + TArray.Num (SpotRowIndices w this)
    < 2 ^ 31 ->
  let count := TArray.Num (SpotRowIndices w this) in
  let newPos := Z.to_nat ((Z.of_nat pos + Incrementer + count) mod count) in
  exists NewSpot NewActiveIdx t,
    MoveMainMenuSpot w Incrementer this
      = Done (Some NewSpot, set_ActiveMainMenuSpotIdx NewActiveIdx this, t)
    /\ SpotRowIndices w this !! newPos = Some NewActiveIdx
    /\ CurrentLevelTypeSpots w this !! newPos = Some (Some NewSpot).
Proof.
  intros Hsmall Hpos Hsum count newPos.
  apply (SpotRowIndices_small w) in Hsmall. fold count in Hsmall, Hsum.
  pose proof (lookup_lt_Some _ _ _ Hpos) as Hlt.
  assert (Hn : 0 < count) by (unfold count, TArray.Num; lia).
  assert (H30 : 2 ^ 30 = 1073741824) by reflexivity.
  assert (H31 : 2 ^ 31 = 2147483648) by reflexivity.
  assert (Hidx : NewSpotIndex w Incrementer this pos = Z.of_nat newPos).
  { rewrite NewSpotIndex_no_wrap; fold count;
      [|unfold Int32.in_range; lia..].
    rewrite Z.rem_mod_nonneg by lia. unfold newPos.
    pose proof (Z.mod_pos_bound (Z.of_nat pos + Incrementer + count) count Hn).
    lia. }
  pose proof (Z.mod_pos_bound (Z.of_nat pos + Incrementer + count) count Hn)
    as Hb.
  destruct (lookup_lt_is_Some_2 (Rows this) newPos) as [a Ha].
  { unfold newPos, count, TArray.Num in *. lia. }
  destruct (MoveMainMenuSpot_in_sync w Incrementer this pos newPos a
              Hpos Hidx Ha) as (h0 & h1 & _ & H1 & Hmove).
  exists h1, a, [StopMasterSequence h0; SetCinematicState h1 IdlePart].
  auto.
Qed.

(** X15.  A stride back beyond the start is not taken modularly: when the
    sum [Position + Incrementer + Num] is negative (and the 32-bit sums do
    not wrap), the truncated remainder is not a position, and the call ends
    the process in the range check of [SpotRowIndices[NewSpotIndex]] unless
    the sum is a multiple of the number of row indices. *)
Theorem MoveMainMenuSpot_stride_fatal Incrementer this pos :
  SmallRegistry this ->
  SpotRowIndices w this !! pos = Some (ActiveMainMenuSpotIdx this) ->
  - 2 ^ 31 <= Z.of_nat pos + Incrementer ->
  Z.of_nat pos + Incrementer + TArray.Num (SpotRowIndices w this) < 0 ->
  (Z.of_nat pos + Incrementer + TArray.Num (SpotRowIndices w this))
    mod TArray.Num (SpotRowIndices w this) ≠ 0 ->
  MoveMainMenuSpot w Incrementer this = Fatal RangeCheckFailed.
Proof.
  intros Hsmall Hpos Hlo Hneg Hmod.
  apply (SpotRowIndices_small w) in Hsmall.
  pose proof (lookup_lt_Some _ _ _ Hpos) as Hlt.
  set (count := TArray.Num (Rows this)) in *.
  assert (Hn : 0 < count) by (unfold count, TArray.Num; lia).
  assert (H30 : 2 ^ 30 = 1073741824) by reflexivity.
  assert (H31 : 2 ^ 31 = 2147483648) by reflexivity.
  apply (MoveMainMenuSpot_bad_index w _ _ pos Hpos).
  rewrite NewSpotIndex_no_wrap; fold count; [|unfold Int32.in_range; lia..].
  set (a := Z.of_nat pos + Incrementer + count) in *.
  assert (Hrem : Z.rem a count < 0).
  { pose proof (Z.rem_nonpos a count ltac:(lia) ltac:(lia)) as Hle.
    destruct (decide (Z.rem a count = 0)) as [Hz|Hnz]; [|lia].
    apply Z.rem_mod_eq_0 in Hz; [contradiction | lia]. }
  unfold TArray.IsValidIndex.
  rewrite (bool_decide_eq_false_2 (0 <= Z.rem a count)) by lia.
  reflexivity.
Qed.

Lemma mod_step_back pos d n :
  0 <= pos < n ->
  ((pos + d + n) mod n + - d + n) mod n = pos.
Proof.
  intros Hpos.
  rewrite <- Z.add_assoc, Zplus_mod_idemp_l.
  replace (pos + d + n + (- d + n)) with (pos + 2 * n) by lia.
  rewrite Z.mod_add by lia. apply Z.mod_small. lia.
Qed.

(** X16.  One step and the step back, in either order: both calls return a
    spot, the second stops the spot the first put to idle and puts to idle
    the spot the first stopped, which it returns, and the subsystem is as
    before.  This holds also when row indices repeat. *)
Theorem MoveMainMenuSpot_there_and_back Incrementer this :
  SmallRegistry this ->
  ActiveInSync w this ->
  Incrementer = 1 \/ Incrementer = -1 ->
  exists Spot0 Spot1 this1,
    MoveMainMenuSpot w Incrementer this
      = Done (Some Spot1, this1,
              [StopMasterSequence Spot0; SetCinematicState Spot1 IdlePart])
    /\ MoveMainMenuSpot w (- Incrementer) this1
       = Done (Some Spot0, this,
               [StopMasterSequence Spot1; SetCinematicState Spot0 IdlePart]).
Proof.
  intros Hsmall Hsync Hd.
  apply (SpotRowIndices_small w) in Hsmall.
  apply ActiveInSync_iff, list_elem_of_lookup in Hsync.
  destruct Hsync as [pos Hpos].
  destruct (MoveMainMenuSpot_step w Incrementer this pos Hd Hsmall Hpos)
    as (np & a & h0 & h1 & Hnp & Ha & H0 & H1 & Hmove1).
  set (this1 := set_ActiveMainMenuSpotIdx a this) in *.
  assert (Hd' : - Incrementer = 1 \/ - Incrementer = -1) by lia.
  destruct (MoveMainMenuSpot_step w (- Incrementer) this1 np Hd' Hsmall Ha)
    as (np2 & a2 & h2 & h3 & Hnp2 & Ha2 & H2 & H3 & Hmove2).
  change (Rows this1) with (Rows this) in Hnp2, Ha2.
  change (Spots this1) with (Spots this) in H2, H3.
  pose proof (lookup_lt_Some _ _ _ Hpos) as Hlt.
  assert (Hback : np2 = pos).
  { apply Nat2Z.inj. rewrite Hnp2, Hnp.
    apply mod_step_back. unfold TArray.Num. lia. }
  subst np2. rewrite Hpos in Ha2. injection Ha2 as <-.
  rewrite H1 in H2. injection H2 as <-.
  rewrite H0 in H3. injection H3 as <-.
  exists h0, h1, this1. split; [exact Hmove1|].
  rewrite Hmove2. destruct this. reflexivity.
Qed.

(** [k] steps in one direction from position [pos]. *)
Lemma times_MoveMainMenuSpot k Incrementer this pos :
  Incrementer = 1 \/ Incrementer = -1 ->
  TArray.Num (Rows this) < 2 ^ 30 ->
  Rows this !! pos = Some (Active this) ->
  exists a t,
    times k (MoveMainMenuSpot w Incrementer) this
      = Done (tt, set_ActiveMainMenuSpotIdx a this, t)
    /\ Rows this
         !! Z.to_nat ((Z.of_nat pos + Z.of_nat k * Incrementer)
                        mod TArray.Num (Rows this))
       = Some a
    /\ length t = (2 * k)%nat.
Proof.
  intros Hd Hsmall. revert this pos Hsmall.
  induction k as [|k IH]; intros this pos Hsmall Hpos.
  - exists (Active this), []. split; [|split; [|reflexivity]].
    + destruct this. reflexivity.
    + pose proof (lookup_lt_Some _ _ _ Hpos) as Hlt.
      replace (Z.of_nat pos + Z.of_nat 0 * Incrementer) with (Z.of_nat pos)
        by lia.
      rewrite Z.mod_small by (unfold TArray.Num; lia).
      rewrite Nat2Z.id. exact Hpos.
  - destruct (MoveMainMenuSpot_step w Incrementer this pos Hd Hsmall Hpos)
      as (np & a1 & h0 & h1 & Hnp & Ha1 & _ & _ & Hmove).
    set (this1 := set_ActiveMainMenuSpotIdx a1 this) in *.
    destruct (IH this1 np Hsmall Ha1) as (a & t & Htimes & Ha & Hlen).
    change (Rows this1) with (Rows this) in Ha.
    exists a, ([StopMasterSequence h0; SetCinematicState h1 IdlePart] ++ t).
    split; [|split].
    + simpl. unfold bind at 1. rewrite Hmove, Htimes. reflexivity.
    + rewrite <- Ha. f_equal. f_equal. rewrite Hnp.
      rewrite Zplus_mod_idemp_l.
      replace (Z.of_nat pos + Incrementer + TArray.Num (Rows this)
               + Z.of_nat k * Incrementer)
        with (Z.of_nat pos + Z.of_nat (S k) * Incrementer
              + 1 * TArray.Num (Rows this)) by lia.
      symmetry. apply Z.mod_add.
      pose proof (lookup_lt_Some _ _ _ Hpos). unfold TArray.Num. lia.
    + simpl. rewrite Hlen. lia.
Qed.

(** X17.  As many steps in one direction as the current level has row
    indices bring the selection back to where it was: all calls return and
    the subsystem is as before. *)
Theorem MoveMainMenuSpot_full_cycle Incrementer this :
  SmallRegistry this ->
  ActiveInSync w this ->
  Incrementer = 1 \/ Incrementer = -1 ->
  exists t,
    times (length (SpotRowIndices w this)) (MoveMainMenuSpot w Incrementer)
      this
    = Done (tt, this, t).
Proof.
  intros Hsmall Hsync Hd.
  apply (SpotRowIndices_small w) in Hsmall.
  apply ActiveInSync_iff, list_elem_of_lookup in Hsync.
  destruct Hsync as [pos Hpos].
  destruct (times_MoveMainMenuSpot (length (Rows this)) Incrementer this pos
              Hd Hsmall Hpos) as (a & t & Htimes & Ha & _).
  pose proof (lookup_lt_Some _ _ _ Hpos) as Hlt.
  unfold TArray.Num in Ha.
  rewrite (Z.mul_comm _ Incrementer), Z.mod_add, Z.mod_small, Nat2Z.id in Ha
    by lia.
  rewrite Hpos in Ha. injection Ha as <-.
  exists t. rewrite Htimes. destruct this. reflexivity.
Qed.

(** X18.  Every spot of the current level can be selected by stepping
    forward: from a selection in sync, fewer forward steps than there are
    row indices make the row index of the spot the active one. *)
Theorem MoveMainMenuSpot_reaches_every_row this h :
  SmallRegistry this ->
  ActiveInSync w this ->
  Matching w this (GetLevelType w) h ->
  exists k t,
    (k < length (SpotRowIndices w this))%nat
    /\ times k (MoveMainMenuSpot w 1) this
       = Done (tt,
               set_ActiveMainMenuSpotIdx (RowIndex (GetCinematicRow w h))
                 this,
               t).
Proof.
  intros Hsmall Hsync Hh.
  apply (SpotRowIndices_small w) in Hsmall.
  apply ActiveInSync_iff, list_elem_of_lookup in Hsync.
  destruct Hsync as [pos Hpos].
  assert (Hrow : row h ∈ Rows this).
  { apply elem_of_SpotRowIndices. eauto. }
  apply list_elem_of_lookup in Hrow. destruct Hrow as [q Hq].
  pose proof (lookup_lt_Some _ _ _ Hpos) as Hlt.
  pose proof (lookup_lt_Some _ _ _ Hq) as Hqlt.
  set (n := Z.of_nat (length (Rows this))).
  assert (Hn : 0 < n) by (unfold n; lia).
  pose proof (Z.mod_pos_bound (Z.of_nat q - Z.of_nat pos) n Hn) as Hb.
  set (k := Z.to_nat ((Z.of_nat q - Z.of_nat pos) mod n)).
  destruct (times_MoveMainMenuSpot k 1 this pos (or_introl eq_refl)
              Hsmall Hpos) as (a & t & Htimes & Ha & _).
  unfold TArray.Num in Ha. fold n in Ha.
  replace (Z.of_nat pos + Z.of_nat k * 1)
    with (Z.of_nat pos + (Z.of_nat q - Z.of_nat pos) mod n) in Ha
    by (unfold k; lia).
  rewrite Zplus_mod_idemp_r in Ha.
  replace (Z.of_nat pos + (Z.of_nat q - Z.of_nat pos)) with (Z.of_nat q)
    in Ha by lia.
  rewrite Z.mod_small, Nat2Z.id in Ha by (unfold n; lia).
  rewrite Hq in Ha. injection Ha as <-.
  exists k, t. split; [unfold k, n in *; lia | exact Htimes].
Qed.

(** The row indices extracted from candidates in ascending order are in
    strictly ascending order. *)
Lemma ExtractRowIndices_ascending hs acc Rows_ :
  StronglySorted (RowIndexLe w) hs ->
  StronglySorted Z.lt acc ->
  (forall r h, r ∈ acc -> h ∈ hs -> r <= row h) ->
  ExtractRowIndices w (Some <$> hs) acc = Done Rows_ ->
  StronglySorted Z.lt Rows_.
Proof.
  intros Hs. revert acc.
  induction Hs as [|h hs Hs IH Hall]; intros acc Hacc Hle; csimpl.
  - intros [= <-]. exact Hacc.
  - rewrite Forall_forall in Hall.
    apply IH.
    + destruct (decide (row h ∈ acc)) as [Hin|Hout].
      * rewrite TArrayFacts.AddUnique_present by exact Hin. exact Hacc.
      * rewrite TArrayFacts.AddUnique_absent by exact Hout.
        apply StronglySorted_app. split; [|split].
        -- intros r1 r2 H1 H2. apply list_elem_of_singleton in H2.
           subst r2. pose proof (Hle r1 h H1 ltac:(constructor)).
           assert (r1 ≠ row h) by congruence. lia.
        -- exact Hacc.
        -- repeat constructor.
    + intros r h' Hr Hh'. apply TArrayFacts.elem_of_AddUnique in Hr.
      destruct Hr as [Hr| ->].
      * apply (Hle r h' Hr). constructor. exact Hh'.
      * apply (Hall h' Hh').
Qed.

(** X19.  The row indices that [MoveMainMenuSpot] steps over are, in
    strictly ascending order and each once, the row indices of the
    registered spots of the current level. *)
Theorem SpotRowIndices_strictly_ascending this :
  StronglySorted Z.lt (SpotRowIndices w this)
  /\ (forall r, r ∈ SpotRowIndices w this
       <-> exists h, Matching w this (GetLevelType w) h
                     /\ RowIndex (GetCinematicRow w h) = r).
Proof.
  split; [|apply elem_of_SpotRowIndices].
  destruct (CurrentLevelTypeSpots_spec w this)
    as (hs & Hs & _ & _ & _ & Hsorted & _).
  destruct (SpotRowIndices_spec w this hs Hs) as (Hrows & _).
  eapply ExtractRowIndices_ascending;
    [exact Hsorted | constructor | | exact Hrows].
  intros r h Hr. apply elem_of_nil in Hr. contradiction.
Qed.

(** The three ways in which a call of [MoveMainMenuSpot] ends. *)
Lemma MoveMainMenuSpot_cases Incrementer this :
  ((Active this ∉ Rows this)
   /\ MoveMainMenuSpot w Incrementer this
      = Done (None, this, [EnsureFailed InMoveMainMenuSpot]))
  \/ (exists pos np a h0 h1,
        Rows this !! pos = Some (Active this)
        /\ NewSpotIndex w Incrementer this pos = Z.of_nat np
        /\ Rows this !! np = Some a
        /\ MoveMainMenuSpot w Incrementer this
           = Done (Some h1, set_ActiveMainMenuSpotIdx a this,
                   [StopMasterSequence h0; SetCinematicState h1 IdlePart]))
  \/ (exists pos,
        Rows this !! pos = Some (Active this)
        /\ TArray.IsValidIndex (Rows this)
             (NewSpotIndex w Incrementer this pos) = false
        /\ MoveMainMenuSpot w Incrementer this = Fatal RangeCheckFailed).
Proof.
  destruct (decide (Active this ∈ Rows this)) as [Hin|Hout].
  2: { left. split; [exact Hout|].
       apply MoveMainMenuSpot_not_found, Hout. }
  right. apply list_elem_of_lookup in Hin. destruct Hin as [pos Hpos].
  destruct (TArray.IsValidIndex (Rows this)
              (NewSpotIndex w Incrementer this pos)) eqn:Hvalid.
  2: { right. exists pos. split; [exact Hpos|]. split; [exact Hvalid|].
       apply (MoveMainMenuSpot_bad_index w _ _ pos Hpos Hvalid). }
  left.
  unfold TArray.IsValidIndex, TArray.Num in Hvalid.
  apply andb_true_iff in Hvalid.
  rewrite !bool_decide_eq_true in Hvalid. destruct Hvalid as [Hlo Hhi].
  set (m := NewSpotIndex w Incrementer this pos) in *.
  destruct (lookup_lt_is_Some_2 (Rows this) (Z.to_nat m)) as [a Ha]; [lia|].
  assert (Hm : m = Z.of_nat (Z.to_nat m)) by lia.
  destruct (MoveMainMenuSpot_in_sync w Incrementer this pos (Z.to_nat m) a
              Hpos Hm Ha) as (h0 & h1 & _ & _ & Heq).
  exists pos, (Z.to_nat m), a, h0, h1. auto.
Qed.

(** X20.  For every incrementer and every registry, the one way in which
    [MoveMainMenuSpot] ends the process is the range check of
    [SpotRowIndices[NewSpotIndex]]: no [checkf] fails, no [nullptr] is
    followed, nothing is divided by zero.  It happens only with the
    selection in sync and a stride other than one step, or in a registry
    too large for the 32-bit sum. *)
Theorem MoveMainMenuSpot_fatal_only_by_range_check Incrementer this f :
  MoveMainMenuSpot w Incrementer this = Fatal f ->
  f = RangeCheckFailed
  /\ ActiveInSync w this
  /\ ((Incrementer ≠ 1 /\ Incrementer ≠ -1) \/ ~ SmallRegistry this).
Proof.
  intros Hfatal.
  destruct (MoveMainMenuSpot_cases Incrementer this)
    as [(_ & Heq)|[(pos & np & a & h0 & h1 & _ & _ & _ & Heq)
                  |(pos & Hpos & _ & Heq)]];
    rewrite Heq in Hfatal; try discriminate.
  injection Hfatal as <-. split; [reflexivity|]. split.
  - apply ActiveInSync_iff, list_elem_of_lookup. eauto.
  - destruct (decide (Incrementer = 1 \/ Incrementer = -1)) as [Hd|Hd];
      [|left; lia].
    right. intros Hsmall. apply (SpotRowIndices_small w) in Hsmall.
    destruct (MoveMainMenuSpot_step w Incrementer this pos Hd Hsmall Hpos)
      as (? & ? & ? & ? & _ & _ & _ & _ & Hmove).
    rewrite Hmove in Heq. discriminate.
Qed.

(** The row indices depend on the registry only through the set of row
    indices of the spots of the current level. *)
Lemma SpotRowIndices_same_rows this1 this2 :
  (forall r, r ∈ Rows this1 <-> r ∈ Rows this2) -> Rows this1 = Rows this2.
Proof.
  intros Hsame.
  destruct (CurrentLevelTypeSpots_spec w this1) as (hs1 & Hs1 & _).
  destruct (CurrentLevelTypeSpots_spec w this2) as (hs2 & Hs2 & _).
  destruct (SpotRowIndices_spec w this1 hs1 Hs1) as (Hr1 & _ & Hnd1 & _).
  destruct (SpotRowIndices_spec w this2 hs2 Hs2) as (Hr2 & _ & Hnd2 & _).
  destruct (CurrentLevelTypeSpots_spec w this1)
    as (hs1' & Hs1' & _ & _ & _ & Hsorted1 & _).
  destruct (CurrentLevelTypeSpots_spec w this2)
    as (hs2' & Hs2' & _ & _ & _ & Hsorted2 & _).
  assert (hs1' = hs1) as ->.
  { rewrite Hs1 in Hs1'. symmetry.
    eapply (list_fmap_eq_inj Some); [apply _ | exact Hs1']. }
  assert (hs2' = hs2) as ->.
  { rewrite Hs2 in Hs2'. symmetry.
    eapply (list_fmap_eq_inj Some); [apply _ | exact Hs2']. }
  apply (StronglySorted_unique_strong Z.lt).
  - intros x1 x2 _ _ H12 H21. lia.
  - eapply ExtractRowIndices_ascending;
      [exact Hsorted1 | constructor | | exact Hr1].
    intros r h Hr. apply elem_of_nil in Hr. contradiction.
  - eapply ExtractRowIndices_ascending;
      [exact Hsorted2 | constructor | | exact Hr2].
    intros r h Hr. apply elem_of_nil in Hr. contradiction.
  - apply NoDup_Permutation; assumption.
Qed.

(** X21.  The order of registration does not matter for the selection: two
    subsystems with the same active row index whose registries hold the
    same entries in different orders step over the same row indices, and a
    call of [MoveMainMenuSpot] ends in the same way for both, with the same
    new active row index. *)
Theorem MoveMainMenuSpot_independent_of_order Incrementer this1 this2 :
  MainMenuSpotsInternal this1 ≡ₚ MainMenuSpotsInternal this2 ->
  ActiveMainMenuSpotIdx this1 = ActiveMainMenuSpotIdx this2 ->
  SpotRowIndices w this1 = SpotRowIndices w this2
  /\ match MoveMainMenuSpot w Incrementer this1,
           MoveMainMenuSpot w Incrementer this2 with
     | Done (r1, s1, _), Done (r2, s2, _) =>
         ActiveMainMenuSpotIdx s1 = ActiveMainMenuSpotIdx s2
         /\ (r1 = None <-> r2 = None)
     | Fatal f1, Fatal f2 => f1 = f2
     | _, _ => False
     end.
Proof.
  intros Hperm Hactive.
  assert (Hrows : Rows this1 = Rows this2).
  { apply SpotRowIndices_same_rows. intros r.
    rewrite !elem_of_SpotRowIndices. unfold Matching.
    split; intros (h & [Hin Hlt] & Hr); exists h;
      (split; [split|]; [|assumption..]).
    - rewrite <- Hperm. exact Hin.
    - rewrite Hperm. exact Hin. }
  split; [exact Hrows|].
  assert (Hidx : forall pos, NewSpotIndex w Incrementer this1 pos
                             = NewSpotIndex w Incrementer this2 pos).
  { intros pos. unfold NewSpotIndex. rewrite Hrows. reflexivity. }
  destruct (MoveMainMenuSpot_cases Incrementer this1)
    as [(Hout & Heq1)|[(pos & np & a & h0 & h1 & Hpos & Hnp & Ha & Heq1)
                      |(pos & Hpos & Hbad & Heq1)]];
    rewrite Heq1; rewrite Hrows, Hactive in *.
  - rewrite MoveMainMenuSpot_not_found by exact Hout. simpl. tauto.
  - rewrite Hidx in Hnp.
    destruct (MoveMainMenuSpot_in_sync w Incrementer this2 pos np a
                Hpos Hnp Ha) as (h0' & h1' & _ & _ & Heq2).
    rewrite Heq2. simpl. split; [reflexivity|]. split; discriminate.
  - rewrite Hidx in Hbad.
    rewrite (MoveMainMenuSpot_bad_index w _ _ pos Hpos Hbad). reflexivity.
Qed.

End CycleProperties.

(** ** The bitmask test of actor types *)

Module MyBlueprintFunctionLibraryFacts.
Import MyBlueprintFunctionLibrary.

Lemma BitwiseActorTypes_true L R :
  BitwiseActorTypes L R = true <-> Z.land L R ≠ 0.
Proof.
  unfold BitwiseActorTypes. rewrite negb_true_iff, Z.eqb_neq. reflexivity.
Qed.

(** From bit 31 on, the bits of an [int32] repeat its sign. *)
Lemma int32_high_bits z n :
  Int32.in_range z -> 31 <= n -> Z.testbit z n = Z.testbit z 31.
Proof.
  unfold Int32.in_range. intros Hr Hn.
  assert (H31 : 2 ^ 31 = 2147483648) by reflexivity.
  assert (Hsmall : forall a m, 0 <= a < 2 ^ 31 -> 31 <= m ->
                     Z.testbit a m = false).
  { intros a m Ha Hm. destruct (decide (a = 0)) as [->|Hnz].
    - apply Z.bits_0.
    - apply Z.bits_above_log2; [lia|].
      assert (Z.log2 a < 31) by (apply Z.log2_lt_pow2; lia). lia. }
  destruct (Z.lt_ge_cases z 0) as [Hneg|Hpos].
  - replace z with (Z.lnot (- z - 1)) by (unfold Z.lnot; lia).
    rewrite !Z.lnot_spec by lia.
    rewrite !Hsmall by lia. reflexivity.
  - rewrite !Hsmall by lia. reflexivity.
Qed.

(** An integer other than zero has a bit set. *)
Lemma nonzero_has_bit z : z ≠ 0 -> exists n, 0 <= n /\ Z.testbit z n = true.
Proof.
  intros Hnz. destruct (Z.lt_trichotomy z 0) as [Hneg|[Hz|Hpos]];
    [|contradiction|].
  - exists (Z.succ (Z.log2 (Z.abs z))). split.
    + pose proof (Z.log2_nonneg (Z.abs z)). lia.
    + apply Z.bits_iff_neg; [lia | exact Hneg].
  - exists (Z.log2 z). split; [apply Z.log2_nonneg | apply Z.bit_log2, Hpos].
Qed.

(** X22.  [BitwiseActorTypes] on two [int32] bitmasks is true exactly when
    one of the 32 bits is set in both; in particular it is false as soon
    as one of the masks is zero, and it does not depend on the order of its
    arguments. *)
Theorem BitwiseActorTypes_common_bit L R :
  Int32.in_range L -> Int32.in_range R ->
  (BitwiseActorTypes L R = true
   <-> exists n, 0 <= n < 32
                 /\ Z.testbit L n = true /\ Z.testbit R n = true)
  /\ BitwiseActorTypes L 0 = false
  /\ BitwiseActorTypes 0 R = false
  /\ BitwiseActorTypes L R = BitwiseActorTypes R L.
Proof.
  intros HL HR. split; [|split; [|split]].
  - rewrite BitwiseActorTypes_true. split.
    + intros Hnz.
      destruct (nonzero_has_bit _ Hnz) as (n & Hn & Hbit).
      rewrite Z.land_spec in Hbit. apply andb_true_iff in Hbit.
      destruct Hbit as [HLn HRn].
      destruct (Z.lt_ge_cases n 32) as [Hlt|Hge].
      * exists n. split; [lia | tauto].
      * exists 31. split; [lia|].
        rewrite <- (int32_high_bits L n), <- (int32_high_bits R n)
          by (assumption || lia).
        tauto.
    + intros (n & Hn & HLn & HRn) Hz.
      assert (Hbit : Z.testbit (Z.land L R) n = true)
        by (rewrite Z.land_spec, HLn, HRn; reflexivity).
      rewrite Hz, Z.bits_0 in Hbit. discriminate.
  - unfold BitwiseActorTypes. rewrite Z.land_0_r. reflexivity.
  - unfold BitwiseActorTypes. rewrite Z.land_0_l. reflexivity.
  - unfold BitwiseActorTypes. rewrite Z.land_comm. reflexivity.
Qed.

(** X23.  Against a mask with the single bit [k] set, [BitwiseActorTypes]
    reads bit [k] of the other mask; and a match with a union of masks is a
    match with one of them. *)
Theorem BitwiseActorTypes_flags L R1 R2 k :
  0 <= k < 31 ->
  BitwiseActorTypes L (Z.shiftl 1 k) = Z.testbit L k
  /\ BitwiseActorTypes L (Z.lor R1 R2)
     = BitwiseActorTypes L R1 || BitwiseActorTypes L R2.
Proof.
  intros [Hk _]. split.
  - unfold BitwiseActorTypes.
    assert (Hland : Z.land L (Z.shiftl 1 k)
                    = if Z.testbit L k then Z.shiftl 1 k else 0).
    { apply Z.bits_inj'. intros n Hn.
      rewrite Z.land_spec, Z.shiftl_spec by exact Hn.
      destruct (decide (n = k)) as [->|Hne].
      - rewrite Z.sub_diag. simpl.
        destruct (Z.testbit L k); simpl.
        + rewrite Z.shiftl_spec, Z.sub_diag by exact Hk. reflexivity.
        + symmetry. apply Z.bits_0.
      - assert (Hone : Z.testbit 1 (n - k) = false).
        { destruct (Z.lt_ge_cases (n - k) 0) as [Hlt|Hge].
          - apply Z.testbit_neg_r, Hlt.
          - apply (Z.bits_above_log2 1 (n - k)); simpl; lia. }
        rewrite Hone, andb_false_r.
        destruct (Z.testbit L k).
        + rewrite Z.shiftl_spec, Hone by exact Hn. reflexivity.
        + symmetry. apply Z.bits_0. }
    rewrite Hland. destruct (Z.testbit L k); [|reflexivity].
    rewrite Z.shiftl_1_l.
    destruct (2 ^ k =? 0) eqn:Hz; [|reflexivity].
    apply Z.eqb_eq in Hz. pose proof (Z.pow_pos_nonneg 2 k). lia.
  - unfold BitwiseActorTypes. rewrite Z.land_lor_distr_r.
    destruct (Z.land L R1 =? 0) eqn:H1, (Z.land L R2 =? 0) eqn:H2; simpl.
    + apply Z.eqb_eq in H1, H2. rewrite H1, H2. reflexivity.
    + apply Z.eqb_eq in H1. apply Z.eqb_neq in H2.
      rewrite H1, Z.lor_0_l. apply negb_true_iff, Z.eqb_neq, H2.
    + apply Z.eqb_neq in H1. apply negb_true_iff, Z.eqb_neq.
      intros Hz. apply Z.lor_eq_0_l in Hz. contradiction.
    + apply Z.eqb_neq in H1. apply negb_true_iff, Z.eqb_neq.
      intros Hz. apply Z.lor_eq_0_l in Hz. contradiction.
Qed.

End MyBlueprintFunctionLibraryFacts.

(** * The further properties on the menus of [Scenario] *)

Ltac literal_NoDup := apply (bool_decide_unpack _); vm_compute; exact I.

Ltac literal_in_range := vm_compute; split; [discriminate | reflexivity].

(** On the second level of the two-level menu the active spot for row 0 is
    A, the first entry with this row. *)
Lemma GetActiveMainMenuSpotComponent_first_witness :
  GetActiveMainMenuSpotComponent (world Level2) (menu 0) = Some 0%nat
  /\ exists i,
      MainMenuSpotsInternal (menu 0) !! i = Some (Some 0%nat)
      /\ RowIndex (GetCinematicRow (world Level2) 0%nat) = 0.
Proof.
  assert (Hget : GetActiveMainMenuSpotComponent (world Level2) (menu 0)
                 = Some 0%nat) by reflexivity.
  split; [exact Hget|].
  destruct (GetActiveMainMenuSpotComponent_first (world Level2) (menu 0))
    as [Hsome _].
  destruct (Hsome 0%nat Hget) as (i & Hi & Hrow & _).
  exists i. split; [exact Hi | exact Hrow].
Defined.

Lemma RemoveMainMenuSpot_unregistered_witness :
  (Some 3%nat ∉ MainMenuSpotsInternal (menu 0))
  /\ RemoveMainMenuSpot (Some 3%nat) (menu 0) = Done (tt, menu 0, []).
Proof.
  assert (Hout : Some 3%nat ∉ MainMenuSpotsInternal (menu 0)).
  { intros Hin. registry_cases Hin. }
  split; [exact Hout|].
  exact (RemoveMainMenuSpot_unregistered (menu 0) 3%nat Hout).
Defined.

Lemma Add_then_Remove_restores_witness :
  (Some 3%nat ∉ MainMenuSpotsInternal (menu 0))
  /\ (AddNewMainMenuSpot (Some 3%nat) ;; RemoveMainMenuSpot (Some 3%nat))
       (menu 0)
     = Done (tt, menu 0, []).
Proof.
  assert (Hout : Some 3%nat ∉ MainMenuSpotsInternal (menu 0)).
  { intros Hin. registry_cases Hin. }
  split; [exact Hout|].
  exact (Add_then_Remove_restores (menu 0) 3%nat Hout).
Defined.

Lemma RemoveMainMenuSpot_effect_witness :
  NoDup (MainMenuSpotsInternal (menu 0))
  /\ Some 1%nat ∈ MainMenuSpotsInternal (menu 0)
  /\ exists this1,
      RemoveMainMenuSpot (Some 1%nat) (menu 0) = Done (tt, this1, [])
      /\ S (length (MainMenuSpotsInternal this1)) = 3%nat.
Proof.
  assert (Hnd : NoDup (MainMenuSpotsInternal (menu 0))) by literal_NoDup.
  assert (Hin : Some 1%nat ∈ MainMenuSpotsInternal (menu 0)).
  { apply list_elem_of_In. simpl. tauto. }
  split; [exact Hnd|]. split; [exact Hin|].
  destruct (RemoveMainMenuSpot_effect (menu 0) 1%nat)
    as (this1 & Heq & _ & _ & _ & _ & Hlen).
  exists this1. split; [exact Heq | exact (Hlen Hnd Hin)].
Defined.

Lemma AddNewMainMenuSpot_appends_witness :
  (Some 3%nat ∉ MainMenuSpotsInternal (menu 0))
  /\ exists this1,
      AddNewMainMenuSpot (Some 3%nat) (menu 0) = Done (tt, this1, [])
      /\ MainMenuSpotsInternal this1
         = MainMenuSpotsInternal (menu 0) ++ [Some 3%nat]
      /\ GetActiveMainMenuSpotComponent (world Level1) this1 = Some 0%nat.
Proof.
  assert (Hout : Some 3%nat ∉ MainMenuSpotsInternal (menu 0)).
  { intros Hin. registry_cases Hin. }
  split; [exact Hout|].
  destruct (AddNewMainMenuSpot_appends (world Level1) (menu 0) 3%nat Hout)
    as (this1 & Heq & Hreg & _ & Hget).
  exists this1. split; [exact Heq|]. split; [exact Hreg|].
  apply Hget. reflexivity.
Defined.

(** Row 1 is carried by B alone: removing A leaves B the active spot. *)
Lemma GetActiveMainMenuSpotComponent_after_Remove_witness :
  GetActiveMainMenuSpotComponent (world Level1) (menu 1) = Some 1%nat
  /\ exists this1,
      RemoveMainMenuSpot (Some 0%nat) (menu 1) = Done (tt, this1, [])
      /\ GetActiveMainMenuSpotComponent (world Level1) this1 = Some 1%nat.
Proof.
  assert (Hget : GetActiveMainMenuSpotComponent (world Level1) (menu 1)
                 = Some 1%nat) by reflexivity.
  split; [exact Hget|].
  apply (GetActiveMainMenuSpotComponent_after_Remove (world Level1) (menu 1)
           1%nat 0%nat Hget).
  - intros h' Hin Hrow.
    registry_cases Hin; simpl in *; try discriminate; reflexivity.
  - discriminate.
Defined.

Lemma RegistryClean_kept_witness :
  RegistryClean (menu 0)
  /\ forall this1 t,
      AddNewMainMenuSpot (Some 3%nat) (menu 0) = Done (tt, this1, t) ->
      RegistryClean this1.
Proof.
  assert (Hclean : RegistryClean (menu 0)).
  { split; [literal_NoDup|]. intros Hin. registry_cases Hin. }
  split; [exact Hclean|].
  destruct (RegistryClean_kept (menu 0) (Some 3%nat)) as [Hadd _].
  exact (Hadd Hclean).
Defined.

Lemma query_after_Add_and_Remove_witness :
  exists this1 hs1,
    AddNewMainMenuSpot (Some 3%nat) (menu 0) = Done (tt, this1, [])
    /\ GetMainMenuSpotsByLevelType (world Level1) this1 [] Level1
       = Done (Some <$> hs1)
    /\ 3%nat ∈ hs1.
Proof.
  destruct (query_after_Add_and_Remove (world Level1) (menu 0) 3%nat Level1)
    as [(this1 & hs1 & Heq & Hq & Hin & _) _].
  exists this1, hs1. split; [exact Heq|]. split; [exact Hq|].
  apply Hin. reflexivity.
Defined.

Lemma MoveMainMenuSpot_frame_witness :
  MainMenuSpotsInternal (menu 1) = MainMenuSpotsInternal (menu 0)
  /\ NewMainMenuDataAssetInternal (menu 1)
     = NewMainMenuDataAssetInternal (menu 0).
Proof.
  assert (Hmove : MoveMainMenuSpot (world Level1) 1 (menu 0)
                  = Done (Some 1%nat, menu 1,
                          [StopMasterSequence 0%nat;
                           SetCinematicState 1%nat IdlePart]))
    by reflexivity.
  destruct (MoveMainMenuSpot_frame (world Level1) 1 (menu 0) (Some 1%nat)
              (menu 1)
              [StopMasterSequence 0%nat; SetCinematicState 1%nat IdlePart]
              Hmove) as (Hreg & Hasset & _).
  split; [exact Hreg | exact Hasset].
Defined.

Lemma MoveMainMenuSpot_stops_active_witness :
  UniqueRows (world Level1) (menu 0) Level1
  /\ exists OldSpot,
      [StopMasterSequence 0%nat; SetCinematicState 1%nat IdlePart]
      = [StopMasterSequence OldSpot; SetCinematicState 1%nat IdlePart]
      /\ RowIndex (GetCinematicRow (world Level1) OldSpot) = 0.
Proof.
  split; [apply menu_UniqueRows|].
  assert (Hmove : MoveMainMenuSpot (world Level1) 1 (menu 0)
                  = Done (Some 1%nat, menu 1,
                          [StopMasterSequence 0%nat;
                           SetCinematicState 1%nat IdlePart]))
    by reflexivity.
  destruct (MoveMainMenuSpot_stops_active (world Level1) 1 (menu 0) 1%nat
              (menu 1)
              [StopMasterSequence 0%nat; SetCinematicState 1%nat IdlePart]
              (menu_UniqueRows 0) Hmove)
    as (OldSpot & Ht & _ & Hrow & _).
  exists OldSpot. split; [exact Ht | exact Hrow].
Defined.

Lemma GetActiveMainMenuSpotComponent_after_Move_witness :
  UniqueRows (world Level1) (menu 0) Level1
  /\ exists h,
      GetActiveMainMenuSpotComponent (world Level1) (menu 1) = Some h
      /\ (LevelType (GetCinematicRow (world Level1) h) = Level1 ->
          h = 1%nat).
Proof.
  split; [apply menu_UniqueRows|].
  assert (Hmove : MoveMainMenuSpot (world Level1) 1 (menu 0)
                  = Done (Some 1%nat, menu 1,
                          [StopMasterSequence 0%nat;
                           SetCinematicState 1%nat IdlePart]))
    by reflexivity.
  destruct (GetActiveMainMenuSpotComponent_after_Move (world Level1) 1
              (menu 0) 1%nat (menu 1)
              [StopMasterSequence 0%nat; SetCinematicState 1%nat IdlePart]
              (menu_UniqueRows 0) Hmove)
    as (h & Hget & _ & Hsame).
  exists h. split; [exact Hget | exact Hsame].
Defined.

(** Rows 0, 2, 5 with 0 active: a stride of four forward lands on row 2. *)
Lemma MoveMainMenuSpot_stride_witness :
  SmallRegistry (rows025 0)
  /\ exists NewSpot NewActiveIdx t,
      MoveMainMenuSpot (world Level1) 4 (rows025 0)
        = Done (Some NewSpot,
                set_ActiveMainMenuSpotIdx NewActiveIdx (rows025 0), t)
      /\ SpotRowIndices (world Level1) (rows025 0) !! 1%nat
         = Some NewActiveIdx.
Proof.
  assert (Hsmall : SmallRegistry (rows025 0)) by reflexivity.
  assert (Hpos : SpotRowIndices (world Level1) (rows025 0) !! 0%nat
                 = Some (ActiveMainMenuSpotIdx (rows025 0)))
    by reflexivity.
  split; [exact Hsmall|].
  destruct (MoveMainMenuSpot_stride (world Level1) 4 (rows025 0) 0
              Hsmall Hpos)
    as (NewSpot & a & t & Hmove & Ha & _).
  { vm_compute. split; [discriminate | reflexivity]. }
  exists NewSpot, a, t. split; [exact Hmove | exact Ha].
Defined.

(** Rows 0, 2, 5 with 0 active: a stride of five back ends the process. *)
Lemma MoveMainMenuSpot_stride_fatal_witness :
  SmallRegistry (rows025 0)
  /\ MoveMainMenuSpot (world Level1) (-5) (rows025 0)
     = Fatal RangeCheckFailed.
Proof.
  assert (Hsmall : SmallRegistry (rows025 0)) by reflexivity.
  assert (Hpos : SpotRowIndices (world Level1) (rows025 0) !! 0%nat
                 = Some (ActiveMainMenuSpotIdx (rows025 0)))
    by reflexivity.
  split; [exact Hsmall|].
  apply (MoveMainMenuSpot_stride_fatal (world Level1) (-5) (rows025 0) 0
           Hsmall Hpos).
  - vm_compute. discriminate.
  - reflexivity.
  - vm_compute. discriminate.
Defined.

Lemma MoveMainMenuSpot_there_and_back_witness :
  SmallRegistry (crowded 0)
  /\ ActiveInSync (world Level1) (crowded 0)
  /\ exists Spot0 Spot1 this1,
      MoveMainMenuSpot (world Level1) (-1) (crowded 0)
        = Done (Some Spot1, this1,
                [StopMasterSequence Spot0; SetCinematicState Spot1 IdlePart])
      /\ MoveMainMenuSpot (world Level1) (- -1) this1
         = Done (Some Spot0, crowded 0,
                 [StopMasterSequence Spot1;
                  SetCinematicState Spot0 IdlePart]).
Proof.
  assert (Hsmall : SmallRegistry (crowded 0)) by reflexivity.
  assert (Hsync : ActiveInSync (world Level1) (crowded 0)).
  { exists 0%nat. split; [registered | reflexivity]. }
  split; [exact Hsmall|]. split; [exact Hsync|].
  exact (MoveMainMenuSpot_there_and_back (world Level1) (-1) (crowded 0)
           Hsmall Hsync (or_intror eq_refl)).
Defined.

Lemma MoveMainMenuSpot_full_cycle_witness :
  SmallRegistry (rows025 2)
  /\ ActiveInSync (world Level1) (rows025 2)
  /\ exists t,
      times 3 (MoveMainMenuSpot (world Level1) 1) (rows025 2)
      = Done (tt, rows025 2, t).
Proof.
  assert (Hsmall : SmallRegistry (rows025 2)) by reflexivity.
  assert (Hsync : ActiveInSync (world Level1) (rows025 2)).
  { exists 3%nat. split; [registered | reflexivity]. }
  split; [exact Hsmall|]. split; [exact Hsync|].
  exact (MoveMainMenuSpot_full_cycle (world Level1) 1 (rows025 2)
           Hsmall Hsync (or_introl eq_refl)).
Defined.

Lemma MoveMainMenuSpot_reaches_every_row_witness :
  SmallRegistry (rows025 2)
  /\ ActiveInSync (world Level1) (rows025 2)
  /\ Matching (world Level1) (rows025 2) Level1 0%nat
  /\ exists k t,
      (k < 3)%nat
      /\ times k (MoveMainMenuSpot (world Level1) 1) (rows025 2)
         = Done (tt, rows025 0, t).
Proof.
  assert (Hsmall : SmallRegistry (rows025 2)) by reflexivity.
  assert (Hsync : ActiveInSync (world Level1) (rows025 2)).
  { exists 3%nat. split; [registered | reflexivity]. }
  assert (Hm : Matching (world Level1) (rows025 2) Level1 0%nat)
    by registered.
  split; [exact Hsmall|]. split; [exact Hsync|]. split; [exact Hm|].
  exact (MoveMainMenuSpot_reaches_every_row (world Level1) (rows025 2) 0%nat
           Hsmall Hsync Hm).
Defined.

Lemma MoveMainMenuSpot_fatal_only_by_range_check_witness :
  MoveMainMenuSpot (world Level1) (-5) (rows025 0) = Fatal RangeCheckFailed
  /\ ActiveInSync (world Level1) (rows025 0).
Proof.
  assert (Hfatal : MoveMainMenuSpot (world Level1) (-5) (rows025 0)
                   = Fatal RangeCheckFailed) by reflexivity.
  split; [exact Hfatal|].
  exact (proj1 (proj2 (MoveMainMenuSpot_fatal_only_by_range_check
                         (world Level1) (-5) (rows025 0) RangeCheckFailed
                         Hfatal))).
Defined.

Lemma MoveMainMenuSpot_independent_of_order_witness :
  MainMenuSpotsInternal (menu 0) ≡ₚ MainMenuSpotsInternal (menu_swapped 0)
  /\ SpotRowIndices (world Level1) (menu 0)
     = SpotRowIndices (world Level1) (menu_swapped 0).
Proof.
  assert (Hperm : MainMenuSpotsInternal (menu 0)
                  ≡ₚ MainMenuSpotsInternal (menu_swapped 0))
    by apply perm_swap.
  split; [exact Hperm|].
  assert (Hact : ActiveMainMenuSpotIdx (menu 0)
                 = ActiveMainMenuSpotIdx (menu_swapped 0)) by reflexivity.
  exact (proj1 (MoveMainMenuSpot_independent_of_order (world Level1) 1
                  (menu 0) (menu_swapped 0) Hperm Hact)).
Defined.

(** The masks 0b0110 and 0b0101 share bit 2. *)
Lemma BitwiseActorTypes_common_bit_witness :
  Int32.in_range 6 /\ Int32.in_range 5
  /\ (MyBlueprintFunctionLibrary.BitwiseActorTypes 6 5 = true
      <-> exists n, 0 <= n < 32
                    /\ Z.testbit 6 n = true /\ Z.testbit 5 n = true).
Proof.
  assert (H6 : Int32.in_range 6) by literal_in_range.
  assert (H5 : Int32.in_range 5) by literal_in_range.
  split; [exact H6|]. split; [exact H5|].
  exact (proj1 (MyBlueprintFunctionLibraryFacts.BitwiseActorTypes_common_bit
                  6 5 H6 H5)).
Defined.

Lemma BitwiseActorTypes_flags_witness :
  0 <= 2 < 31
  /\ MyBlueprintFunctionLibrary.BitwiseActorTypes 6 (Z.shiftl 1 2)
     = Z.testbit 6 2.
Proof.
  assert (Hk : 0 <= 2 < 31) by lia.
  split; [exact Hk|].
  exact (proj1 (MyBlueprintFunctionLibraryFacts.BitwiseActorTypes_flags
                  6 0 0 2 Hk)).
Defined.
